(** * swagger2locustio: the combinatorial test-case generator

    A shallow embedding of [swagger2locustio/generators/base_generator.py]
    (class [BaseGenerator]) and the properties of its parameter extractor,
    combination enumerator, case assembler and security-case builder.

    Python dictionaries are association lists in insertion order (the
    order [dict.items()] iterates in); assignment to an existing key keeps
    the key's position.  Exceptions are a result type.  The Jinja templates
    of [swagger2locustio.templates.locustfile_templates] and the builtins
    [repr] and [str] on a dictionary are not part of the generator: they
    are taken as parameters. *)

From Stdlib Require Import List String Ascii Arith Bool Lia Sorted ZArith.
From Stdlib Require Import DecimalString DecimalNat.
Import ListNotations.
Open Scope string_scope.
Open Scope list_scope.

(** String concatenation, written apart from list append. *)
Infix "+++" := String.append (right associativity, at level 60).

(** ** Python values and dictionaries *)

(** The JSON scalars a parameter's [default] or [required] entry can hold;
    [VNone] is also what [dict.get] answers for an absent key. *)
Inductive value : Type :=
| VNone
| VBool (b : bool)
| VInt (z : Z)
| VStr (s : string).

(** Python truth value ([if val], [not val]). *)
Definition truthy (v : value) : bool :=
  match v with
  | VNone => false
  | VBool b => b
  | VInt z => negb (Z.eqb z 0)
  | VStr s => negb (String.eqb s "")
  end.

(** [str(n)] for a non-negative integer. *)
Definition str_nat (n : nat) : string := NilEmpty.string_of_uint (Nat.to_uint n).

(** [str(x)] inside an f-string, for a string that may be [None]. *)
Definition str_opt (o : option string) : string :=
  match o with
  | Some s => s
  | None => "None"
  end.

(** [str.lower] on ASCII letters. *)
Definition lower_ascii (c : ascii) : ascii :=
  let n := nat_of_ascii c in
  if Nat.leb 65 n && Nat.leb n 90 then ascii_of_nat (n + 32) else c.

Fixpoint lower (s : string) : string :=
  match s with
  | EmptyString => EmptyString
  | String c s' => String (lower_ascii c) (lower s')
  end.

Definition dict (V : Type) : Type := list (string * V).

(** [d[k] = v]: overwrite in place, or append a new key at the end. *)
Fixpoint dict_set {V : Type} (k : string) (v : V) (d : dict V) : dict V :=
  match d with
  | [] => [(k, v)]
  | (k', v') :: d' =>
      if String.eqb k' k then (k', v) :: d' else (k', v') :: dict_set k v d'
  end.

Fixpoint dict_get {V : Type} (k : string) (d : dict V) : option V :=
  match d with
  | [] => None
  | (k', v') :: d' => if String.eqb k' k then Some v' else dict_get k d'
  end.

Definition keys {V : Type} (d : dict V) : list string := map fst d.

(** ** The normalized specification object *)

(** One parameter's configuration: the entries the generator reads with
    [.get]. *)
Record param_config : Type := mk_param {
  p_in : option string;
  p_required : value;
  p_default : value;
  p_name : option string
}.

Record method_data : Type := mk_method {
  md_params : option (dict param_config)
}.

Record security_config : Type := mk_security {
  sc_in : option string;
  sc_name : option string
}.

(** [security] is a dictionary; an empty one and [None] are both falsy, and
    are both the empty list here. *)
Record swagger_data : Type := mk_swagger {
  sw_paths : dict (dict method_data);
  sw_security : dict security_config;
  sw_host : string
}.

(** ** Exceptions *)

(** The three [raise ValueError(...)] sites of the generator, with their
    arguments.  The specification calls them InvalidLocationError,
    MissingDefaultError and UnsupportedSecuritySchemeError. *)
Inductive value_error : Type :=
| NotValidIn (param : string) (param_location : option string) (cfg : param_config)
| NoDefaultValue (param_location : option string) (param : string)
| UnsupportedSecurity (cfg : security_config).

Inductive exn : Type :=
| ValueError (e : value_error)
| AttributeError (attribute : string).

Inductive result (E A : Type) : Type :=
| Ok (a : A)
| Raise (e : E).
Arguments Ok {E A} a.
Arguments Raise {E A} e.

(** ** Parameter extractor: [_extract_params] *)

Record bucket : Type := mk_bucket {
  required : list param_config;
  not_required : list param_config
}.

Record extracted : Type := mk_extracted {
  path_params : bucket;
  query_params : bucket;
  header_params : bucket;
  cookie_params : bucket
}.

Inductive target : Type := TQuery | TPath | THeader | TCookie.

(** The [if]/[elif] chain on [param_location]; [None] is the [else]. *)
Definition select_target (param_location : option string) : option target :=
  match param_location with
  | None => None
  | Some l =>
      if String.eqb l "query" then Some TQuery
      else if String.eqb l "path" then Some TPath
      else if String.eqb l "header" then Some THeader
      else if String.eqb l "cookie" then Some TCookie
      else None
  end.

(** [b[required_type].append(cfg)] *)
Definition bucket_append (is_required : bool) (cfg : param_config) (b : bucket) : bucket :=
  if is_required
  then mk_bucket (required b ++ [cfg]) (not_required b)
  else mk_bucket (required b) (not_required b ++ [cfg]).

Definition get_target (t : target) (e : extracted) : bucket :=
  match t with
  | TQuery => query_params e
  | TPath => path_params e
  | THeader => header_params e
  | TCookie => cookie_params e
  end.

Definition target_append (t : target) (is_required : bool) (cfg : param_config)
    (e : extracted) : extracted :=
  match t with
  | TQuery => mk_extracted (path_params e) (bucket_append is_required cfg (query_params e))
                (header_params e) (cookie_params e)
  | TPath => mk_extracted (bucket_append is_required cfg (path_params e)) (query_params e)
                (header_params e) (cookie_params e)
  | THeader => mk_extracted (path_params e) (query_params e)
                (bucket_append is_required cfg (header_params e)) (cookie_params e)
  | TCookie => mk_extracted (path_params e) (query_params e) (header_params e)
                (bucket_append is_required cfg (cookie_params e))
  end.

Definition empty_bucket : bucket := mk_bucket [] [].
Definition empty_extracted : extracted :=
  mk_extracted empty_bucket empty_bucket empty_bucket empty_bucket.

(** The body of the loop over [params.items()]. *)
Definition extract_step (strict_level : nat) (e : extracted) (item : string * param_config)
    : result value_error extracted :=
  let '(param, cfg) := item in
  let param_location := p_in cfg in
  let is_required := truthy (p_required cfg) in
  let default_val := p_default cfg in
  match select_target param_location with
  | None => Raise (NotValidIn param param_location cfg)
  | Some t =>
      if Nat.eqb strict_level 0 then Ok (target_append t is_required cfg e)
      else if Nat.eqb strict_level 1
              && (truthy default_val || (negb (truthy default_val) && is_required))
      then Ok (target_append t is_required cfg e)
      else if Nat.eqb strict_level 2 then
        if truthy default_val then Ok (target_append t is_required cfg e)
        else Raise (NoDefaultValue param_location param)
      else Ok e
  end.

Fixpoint extract_loop (strict_level : nat) (params : dict param_config) (e : extracted)
    : result value_error extracted :=
  match params with
  | [] => Ok e
  | item :: rest =>
      match extract_step strict_level e item with
      | Raise err => Raise err
      | Ok e' => extract_loop strict_level rest e'
      end
  end.

Definition _extract_params (strict_level : nat) (params : dict param_config)
    : result value_error extracted :=
  extract_loop strict_level params empty_extracted.

(** ** Combination enumerator: [_create_params_combinations] *)

(** [itertools.combinations(pool, r)]: the length-[r] subsequences of
    [pool], chosen by position, in lexicographic order of positions. *)
Fixpoint combinations {A : Type} (pool : list A) (r : nat) : list (list A) :=
  match r with
  | 0 => [[]]
  | S r' =>
      match pool with
      | [] => []
      | x :: pool' => map (cons x) (combinations pool' r') ++ combinations pool' r
      end
  end.

Definition _create_params_combinations (params : bucket) : list (list param_config) :=
  let not_required_query_params := not_required params in
  let required_query_params := required params in
  flat_map
    (fun combination_count =>
       map (fun not_required_combination => required_query_params ++ not_required_combination)
           (combinations not_required_query_params combination_count))
    (seq 0 (List.length not_required_query_params + 1)).

Record params_combinations : Type := mk_combinations {
  c_path_params : list (list param_config);
  c_query_params : list (list param_config);
  c_header_params : list (list param_config);
  c_cookie_params : list (list param_config)
}.

Definition generate_params (strict_level : nat) (params : dict param_config)
    : result value_error params_combinations :=
  match _extract_params strict_level params with
  | Raise err => Raise err
  | Ok extracted_params =>
      Ok (mk_combinations
            (_create_params_combinations (path_params extracted_params))
            (_create_params_combinations (query_params extracted_params))
            (_create_params_combinations (header_params extracted_params))
            (_create_params_combinations (cookie_params extracted_params)))
  end.

(** ** Templates and builtins *)

(** The [render] functions of the templates the generator fills in. *)
Record templates : Type := mk_templates {
  FUNC_TEMPLATE :
    string -> string -> string -> string -> string -> string -> string -> string;
  PATH_PARAM_PAIR_TEMPLATE : option string -> string -> string;
  DICT_PARAM_PAIR_TEMPLATE : option string -> string -> string;
  AUTH_BASIC_TEMPLATE : string;
  AUTH_KEY_HEADER_TEMPLATE : string -> string;
  FILE_TEMPLATE : string -> string -> option string -> string -> string
}.

(** [repr] of a default value and [str] of a parameter's dictionary. *)
Record builtins : Type := mk_builtins {
  repr : value -> string;
  str_dict : param_config -> string
}.

(** The double-quote character of the declaration line. *)
Definition dquote : string := String (ascii_of_nat 34) EmptyString.

(** What a generation run reads and writes besides its arguments:
    [self.vars_without_values] and the warnings given to [logging]. *)
Record state : Type := mk_state {
  vars_without_values : dict param_config;
  warnings : list value_error
}.

(** [BaseGenerator.__init__] *)
Definition init_state : state := mk_state [] [].

Section Generator.

Variable l_templates : templates.
Variable py : builtins.
Variable strict_level : nat.

(** ** Case assembler: [_format_params] *)

(** The placeholder token [f"{name}_test_{test_count}"]. *)
Definition placeholder (name : option string) (test_count : nat) : string :=
  str_opt name +++ "_test_" +++ str_nat test_count.

(** The loop over [raw_params]: [params] is the list of rendered pairs,
    [vars] is [self.vars_without_values]. *)
Fixpoint format_loop (raw_params : list param_config) (test_count : nat)
    (param_type : string) (params : list string) (vars : dict param_config)
    : list string * dict param_config :=
  match raw_params with
  | [] => (params, vars)
  | param :: rest =>
      let name := p_name param in
      let val := p_default param in
      let '(val', vars') :=
        if negb (truthy val)
        then (placeholder name test_count,
              dict_set (placeholder name test_count) param vars)
        else (repr py val, vars) in
      let pair :=
        if String.eqb param_type "path"
        then PATH_PARAM_PAIR_TEMPLATE l_templates name val'
        else DICT_PARAM_PAIR_TEMPLATE l_templates name val' in
      format_loop rest test_count param_type (params ++ [pair]) vars'
  end.

Definition _format_params (raw_params : list param_config) (test_count : nat)
    (param_type : string) (vars : dict param_config) : string * dict param_config :=
  let '(params, vars') := format_loop raw_params test_count param_type [] vars in
  let formatted_params :=
    if String.eqb param_type "path" then
      match params with
      | [] => ""
      | _ => ", " +++ String.concat ", " params
      end
    else
      match params with
      | [] => "{}"
      | _ => "{" +++ String.concat ", " params +++ "}"
      end in
  (formatted_params, vars').

(** ** Case assembler: the loops of [generate_test_cases] *)

Definition func_name (test_count case : nat) : string :=
  "test_" +++ str_nat test_count +++ "_case_" +++ str_nat case.

(** The local variables the four nested loops update. *)
Record cases_acc : Type := mk_acc {
  funcs : list string;
  case : nat;
  vars : dict param_config
}.

(** The body of the innermost loop: the keyword arguments of [render] are
    evaluated left to right, then the function is appended and [case]
    incremented. *)
Definition emit_case (method path : string) (test_count : nat)
    (path_parameters query_parameters header_parameters cookie_parameters
       : list param_config) (a : cases_acc) : cases_acc :=
  let '(path_s, v1) := _format_params path_parameters test_count "path" (vars a) in
  let '(query_s, v2) := _format_params query_parameters test_count "query" v1 in
  let '(header_s, v3) := _format_params header_parameters test_count "header" v2 in
  let '(cookie_s, v4) := _format_params cookie_parameters test_count "cookie" v3 in
  mk_acc
    (funcs a ++ [FUNC_TEMPLATE l_templates (func_name test_count (case a)) method path
                   path_s query_s header_s cookie_s])
    (S (case a))
    v4.

Definition cases_loop (method path : string) (test_count : nat)
    (pc : params_combinations) (a : cases_acc) : cases_acc :=
  fold_left (fun a path_parameters =>
    fold_left (fun a query_parameters =>
      fold_left (fun a header_parameters =>
        fold_left (fun a cookie_parameters =>
          emit_case method path test_count
            path_parameters query_parameters header_parameters cookie_parameters a)
          (c_cookie_params pc) a)
        (c_header_params pc) a)
      (c_query_params pc) a)
    (c_path_params pc) a.

(** The variables the loops over paths and methods update. *)
Record run : Type := mk_run {
  r_funcs : list string;
  r_test_count : nat;
  r_state : state
}.

(** [method_data.get("params", {})] *)
Definition get_params (md : method_data) : dict param_config :=
  match md_params md with
  | Some params => params
  | None => []
  end.

(** The body of the loop over the methods of one path: [try] the
    extraction; on [ValueError] log it and [continue]; otherwise emit the
    cases and increment [test_count]. *)
Definition method_step (path : string) (r : run) (item : string * method_data) : run :=
  let '(method, md) := item in
  match generate_params strict_level (get_params md) with
  | Raise error =>
      mk_run (r_funcs r) (r_test_count r)
        (mk_state (vars_without_values (r_state r)) (warnings (r_state r) ++ [error]))
  | Ok pc =>
      let a := cases_loop method path (r_test_count r) pc
                 (mk_acc (r_funcs r) 0 (vars_without_values (r_state r))) in
      mk_run (funcs a) (r_test_count r + 1)
        (mk_state (vars a) (warnings (r_state r)))
  end.

Definition paths_loop (paths_data : dict (dict method_data)) (r : run) : run :=
  fold_left (fun r '(path, methods_data) =>
    fold_left (fun r item => method_step path r item) methods_data r)
    paths_data r.

Definition generate_test_cases (paths_data : dict (dict method_data)) (s : state)
    : string * state :=
  let r := paths_loop paths_data (mk_run [] 0 s) in
  (String.concat "" (r_funcs r), r_state r).

(** ** Security case builder: [generate_security_cases] *)

(** [if name]: present and not the empty string. *)
Definition name_given (name : option string) : bool :=
  match name with
  | Some n => negb (String.eqb n "")
  | None => false
  end.

Fixpoint security_loop (security_data : dict security_config) (security_cases : list string)
    : result exn (list string) :=
  match security_data with
  | [] => Ok security_cases
  | (security_type, security_config) :: rest =>
      if String.eqb security_type "BasicAuth" then
        security_loop rest (security_cases ++ [AUTH_BASIC_TEMPLATE l_templates])
      else if String.eqb security_type "apiKey" then
        let location := sc_in security_config in
        let name := sc_name security_config in
        match location with
        | None => Raise (AttributeError "lower")
        | Some loc =>
            if String.eqb (lower loc) "header" && name_given name then
              security_loop rest
                (security_cases ++ [AUTH_KEY_HEADER_TEMPLATE l_templates (str_opt name)])
            else Raise (ValueError (UnsupportedSecurity security_config))
        end
      else security_loop rest security_cases
  end.

Definition generate_security_cases (security_data : dict security_config)
    : result exn string :=
  match security_loop security_data [] with
  | Raise e => Raise e
  | Ok security_cases => Ok (String.concat "" security_cases)
  end.

(** ** Orchestrator: [generate_code_from_template], [generate_locustfile] *)

(** One line of the declarations block: [f'{var} = "#"  # {var_data}'] *)
Definition declaration (item : string * param_config) : string :=
  fst item +++ " = " +++ dquote +++ "#" +++ dquote +++ "  # " +++ str_dict py (snd item).

Definition generate_code_from_template (test_cases : string) (security_cases : option string)
    (host : string) (s : state) : string :=
  let required_vars := map declaration (vars_without_values s) in
  let vars_str := String.concat (String (ascii_of_nat 10) EmptyString) required_vars in
  FILE_TEMPLATE l_templates vars_str test_cases security_cases host.

Definition generate_locustfile (data : swagger_data) (s : state) : result exn string * state :=
  let '(test_cases, s1) := generate_test_cases (sw_paths data) s in
  let security_data := sw_security data in
  match security_data with
  | [] => (Ok (generate_code_from_template test_cases None (sw_host data) s1), s1)
  | _ :: _ =>
      match generate_security_cases security_data with
      | Raise e => (Raise e, s1)
      | Ok security_cases =>
          (Ok (generate_code_from_template test_cases (Some security_cases) (sw_host data) s1),
           s1)
      end
  end.

End Generator.

(** ** Vocabulary of the properties *)

(** The elements of [l] at the given positions, in the order given. *)
Definition pick {A : Type} (l : list A) (positions : list nat) : list A :=
  flat_map (fun i => match nth_error l i with Some x => [x] | None => [] end) positions.

(** The position sets the enumerator draws from an optional sequence of
    length [n], in the order it draws them. *)
Definition index_subsets (n : nat) : list (list nat) :=
  flat_map (combinations (seq 0 n)) (seq 0 (n + 1)).

(** A set of positions, written as a strictly increasing list. *)
Definition increasing (s : list nat) : Prop := StronglySorted lt s.

(** Lexicographic order on lists of positions. *)
Inductive lex_lt : list nat -> list nat -> Prop :=
| lex_lt_nil : forall y ys, lex_lt [] (y :: ys)
| lex_lt_head : forall x y xs ys, x < y -> lex_lt (x :: xs) (y :: ys)
| lex_lt_tail : forall x xs ys, lex_lt xs ys -> lex_lt (x :: xs) (x :: ys).

(** Smaller subsets first; within a size, lexicographic over positions. *)
Definition subset_lt (s t : list nat) : Prop :=
  List.length s < List.length t \/ (List.length s = List.length t /\ lex_lt s t).

(** A parameter "has a default" when its [default] entry is truthy, and
    "is required" when its [required] entry is. *)
Definition has_default (cfg : param_config) : bool := truthy (p_default cfg).
Definition is_required (cfg : param_config) : bool := truthy (p_required cfg).

(** The location is one of path, query, header, cookie. *)
Definition valid_location (cfg : param_config) : bool :=
  match select_target (p_in cfg) with
  | Some _ => true
  | None => false
  end.

Definition target_eqb (t u : target) : bool :=
  match t, u with
  | TQuery, TQuery | TPath, TPath | THeader, THeader | TCookie, TCookie => true
  | _, _ => false
  end.

Definition located_at (t : target) (cfg : param_config) : bool :=
  match select_target (p_in cfg) with
  | Some u => target_eqb t u
  | None => false
  end.

(** The inclusion rule of each strict level. *)
Definition included (strict_level : nat) (cfg : param_config) : bool :=
  match strict_level with
  | 0 => true
  | 1 => has_default cfg || is_required cfg
  | 2 => has_default cfg
  | _ => false
  end.

(** The parameters on which extraction raises. *)
Definition rejected (strict_level : nat) (cfg : param_config) : bool :=
  negb (valid_location cfg) || (Nat.eqb strict_level 2 && negb (has_default cfg)).

(** The error raised on a rejected parameter: the location is checked
    before the strict level is looked at. *)
Definition rejection (param : string) (cfg : param_config) : value_error :=
  if valid_location cfg then NoDefaultValue (p_in cfg) param
  else NotValidIn param (p_in cfg) cfg.

(** The bucket of location [t] after extraction, as a filter of the
    declared parameters. *)
Definition bucket_of (strict_level : nat) (t : target) (params : dict param_config)
    : bucket :=
  mk_bucket
    (filter (fun cfg => located_at t cfg && is_required cfg && included strict_level cfg)
       (map snd params))
    (filter (fun cfg => located_at t cfg && negb (is_required cfg) && included strict_level cfg)
       (map snd params)).

Definition buckets_of (strict_level : nat) (params : dict param_config) : extracted :=
  mk_extracted (bucket_of strict_level TPath params) (bucket_of strict_level TQuery params)
    (bucket_of strict_level THeader params) (bucket_of strict_level TCookie params).

(** Extraction, said in one piece: the first rejected parameter's error,
    or the buckets. *)
Definition extract_spec (strict_level : nat) (params : dict param_config)
    : result value_error extracted :=
  match find (fun item => rejected strict_level (snd item)) params with
  | Some (param, cfg) => Raise (rejection param cfg)
  | None => Ok (buckets_of strict_level params)
  end.

Definition bucket_app (b c : bucket) : bucket :=
  mk_bucket (required b ++ required c) (not_required b ++ not_required c).

Definition extracted_app (e f : extracted) : extracted :=
  mk_extracted (bucket_app (path_params e) (path_params f))
    (bucket_app (query_params e) (query_params f))
    (bucket_app (header_params e) (header_params f))
    (bucket_app (cookie_params e) (cookie_params f)).

(** The operations of a specification in the order the generator visits
    them: paths in declaration order, the methods of a path in theirs. *)
Definition operation : Type := string * (string * method_data).

Definition operations (paths_data : dict (dict method_data)) : list operation :=
  flat_map (fun '(path, methods_data) => map (pair path) methods_data) paths_data.

(** One test case's choice of parameters: path, query, header, cookie. *)
Definition case_params : Type :=
  list param_config * (list param_config * (list param_config * list param_config)).

(** The cross product of the four combination lists, the first factor
    varying slowest. *)
Definition cross (pc : params_combinations) : list case_params :=
  list_prod (c_path_params pc)
    (list_prod (c_query_params pc)
       (list_prod (c_header_params pc) (c_cookie_params pc))).

(** Placeholder registrations, in the order they are made. *)
Definition registrations : Type := list (string * param_config).

Definition register (ws : registrations) (vars : dict param_config) : dict param_config :=
  fold_left (fun v w => dict_set (fst w) (snd w) v) ws vars.

(** The registration a key holds at the end: its last one. *)
Fixpoint last_registered (k : string) (ws : registrations) : option param_config :=
  match ws with
  | [] => None
  | (k', p) :: ws' =>
      match last_registered k ws' with
      | Some q => Some q
      | None => if String.eqb k' k then Some p else None
      end
  end.

Section GeneratorVocabulary.

Variable l_templates : templates.
Variable py : builtins.
Variable strict_level : nat.

(** The value a parameter is given in a test of operation [test_count]. *)
Definition resolve (param : param_config) (test_count : nat) : string :=
  if has_default param then repr py (p_default param)
  else placeholder (p_name param) test_count.

Definition render_pair (param_type : string) (test_count : nat) (param : param_config)
    : string :=
  if String.eqb param_type "path"
  then PATH_PARAM_PAIR_TEMPLATE l_templates (p_name param) (resolve param test_count)
  else DICT_PARAM_PAIR_TEMPLATE l_templates (p_name param) (resolve param test_count).

(** The formatted parameter block of one location. *)
Definition formatted (raw_params : list param_config) (test_count : nat)
    (param_type : string) : string :=
  let params := map (render_pair param_type test_count) raw_params in
  if String.eqb param_type "path" then
    match params with
    | [] => ""
    | _ => ", " +++ String.concat ", " params
    end
  else
    match params with
    | [] => "{}"
    | _ => "{" +++ String.concat ", " params +++ "}"
    end.

(** The placeholders one location's block registers. *)
Definition block_registrations (raw_params : list param_config) (test_count : nat)
    : registrations :=
  map (fun param => (placeholder (p_name param) test_count, param))
    (filter (fun param => negb (has_default param)) raw_params).

Definition case_registrations (test_count : nat) (c : case_params) : registrations :=
  let '(pp, (qp, (hp, cp))) := c in
  block_registrations pp test_count ++ block_registrations qp test_count ++
  block_registrations hp test_count ++ block_registrations cp test_count.

(** The test function of case [case] of operation [test_count]. *)
Definition case_func (method path : string) (test_count case : nat) (c : case_params)
    : string :=
  let '(pp, (qp, (hp, cp))) := c in
  FUNC_TEMPLATE l_templates (func_name test_count case) method path
    (formatted pp test_count "path") (formatted qp test_count "query")
    (formatted hp test_count "header") (formatted cp test_count "cookie").

(** The test functions of a list of cases numbered from [case]. *)
Fixpoint case_funcs (method path : string) (test_count case : nat) (cs : list case_params)
    : list string :=
  match cs with
  | [] => []
  | c :: cs' =>
      case_func method path test_count case c ::
      case_funcs method path test_count (S case) cs'
  end.

(** What processing a list of operations adds: test functions,
    placeholder registrations, warnings, and the next sequence number. *)
Record outcome : Type := mk_outcome {
  o_funcs : list string;
  o_registrations : registrations;
  o_warnings : list value_error;
  o_next : nat
}.

Definition op_outcome (op : operation) (test_count : nat) : outcome :=
  let '(path, (method, md)) := op in
  match generate_params strict_level (get_params md) with
  | Raise error => mk_outcome [] [] [error] test_count
  | Ok pc =>
      mk_outcome (case_funcs method path test_count 0 (cross pc))
        (flat_map (case_registrations test_count) (cross pc)) [] (test_count + 1)
  end.

Fixpoint run_outcome (ops : list operation) (test_count : nat) : outcome :=
  match ops with
  | [] => mk_outcome [] [] [] test_count
  | op :: rest =>
      let o := op_outcome op test_count in
      let o' := run_outcome rest (o_next o) in
      mk_outcome (o_funcs o ++ o_funcs o') (o_registrations o ++ o_registrations o')
        (o_warnings o ++ o_warnings o') (o_next o')
  end.

(** Whether extraction succeeds on an operation. *)
Definition extracts (op : operation) : bool :=
  match generate_params strict_level (get_params (snd (snd op))) with
  | Ok _ => true
  | Raise _ => false
  end.

End GeneratorVocabulary.

(** The loop variables after an outcome is added to them. *)
Definition apply_outcome (o : outcome) (r : run) : run :=
  mk_run (r_funcs r ++ o_funcs o) (o_next o)
    (mk_state (register (o_registrations o) (vars_without_values (r_state r)))
       (warnings (r_state r) ++ o_warnings o)).

(** Two outcomes in sequence. *)
Definition outcome_app (o o' : outcome) : outcome :=
  mk_outcome (o_funcs o ++ o_funcs o') (o_registrations o ++ o_registrations o')
    (o_warnings o ++ o_warnings o') (o_next o').

(** The side of a bucket a parameter of the given requiredness goes to. *)
Definition bucket_side (is_req : bool) (b : bucket) : list param_config :=
  if is_req then required b else not_required b.

(** ** A sample instance

    Concrete templates, builtins and specifications on which the model is
    evaluated. *)

Definition sample_templates : templates :=
  mk_templates
    (fun func_name method path path_params query_params header_params cookie_params =>
       "def " +++ func_name +++ "(l): l.client." +++ method +++ "(" +++ path +++
       path_params +++ ", params=" +++ query_params +++ ", headers=" +++ header_params +++
       ", cookies=" +++ cookie_params +++ ");")
    (fun key val => str_opt key +++ "=" +++ val)
    (fun key val => "'" +++ str_opt key +++ "': " +++ val)
    "auth=basic;"
    (fun name => "header[" +++ name +++ "];")
    (fun required_vars test_cases security_cases host =>
       required_vars +++ "|" +++ test_cases +++ "|" +++
       match security_cases with Some sc => sc | None => "None" end +++ "|" +++ host).

Definition sample_builtins : builtins :=
  mk_builtins
    (fun v =>
       match v with
       | VNone => "None"
       | VBool true => "True"
       | VBool false => "False"
       | VInt z => NilEmpty.string_of_int (Z.to_int z)
       | VStr s => "'" +++ s +++ "'"
       end)
    (fun cfg => "{'name': " +++ str_opt (p_name cfg) +++ "}").

(** A required query parameter without default. *)
Definition sample_id : param_config :=
  mk_param (Some "query") (VBool true) VNone (Some "id").
(** An optional query parameter with a default. *)
Definition sample_limit : param_config :=
  mk_param (Some "query") (VBool false) (VInt 10) (Some "limit").
(** An optional query parameter whose default is 0. *)
Definition sample_page : param_config :=
  mk_param (Some "query") (VBool false) (VInt 0) (Some "page").
(** An optional header parameter without default. *)
Definition sample_trace : param_config :=
  mk_param (Some "header") (VBool false) VNone (Some "trace").
(** A required path parameter with a default. *)
Definition sample_pet : param_config :=
  mk_param (Some "path") (VBool true) (VStr "rex") (Some "pet").
(** A parameter located in the request body. *)
Definition sample_body : param_config :=
  mk_param (Some "body") (VBool true) (VStr "x") (Some "payload").

Definition sample_params : dict param_config :=
  [("id", sample_id); ("limit", sample_limit); ("page", sample_page);
   ("trace", sample_trace); ("pet", sample_pet)].

(** An operation whose parameters all have defaults. *)
Definition sample_get : method_data :=
  mk_method (Some [("pet", sample_pet); ("limit", sample_limit)]).
(** An operation with a required parameter lacking a default. *)
Definition sample_post : method_data :=
  mk_method (Some [("limit", sample_limit); ("id", sample_id)]).
(** An operation with a parameter in the request body. *)
Definition sample_put : method_data :=
  mk_method (Some [("limit", sample_limit); ("payload", sample_body)]).
(** An operation with a default-less parameter declared before one in the
    request body. *)
Definition sample_patch : method_data :=
  mk_method (Some [("id", sample_id); ("payload", sample_body)]).
(** An operation without a [params] entry. *)
Definition sample_delete : method_data := mk_method None.

Definition sample_paths_before : dict (dict method_data) :=
  [("/pets", [("get", sample_get)])].
Definition sample_paths_after : dict (dict method_data) :=
  [("/pets/{pet}", [("get", sample_get); ("delete", sample_delete)])].

(** A specification around one operation [md] of path "/owners". *)
Definition sample_paths_with (method : string) (md : method_data)
    : dict (dict method_data) :=
  sample_paths_before ++
  ("/owners", [("get", sample_get)] ++ (method, md) :: [("delete", sample_delete)]) ::
  sample_paths_after.

Definition sample_paths_without : dict (dict method_data) :=
  sample_paths_before ++
  ("/owners", [("get", sample_get)] ++ [("delete", sample_delete)]) ::
  sample_paths_after.

(** A parameter's configuration with the [default] entry removed. *)
Definition without_default (cfg : param_config) : param_config :=
  mk_param (p_in cfg) (p_required cfg) VNone (p_name cfg).

(** Removes the falsy defaults of a parameter list. *)
Definition erase_falsy (cfg : param_config) : param_config :=
  if has_default cfg then cfg else without_default cfg.

(** The parameters of the [i]-th case of an operation: [i] read as a
    number whose digits, from the most significant, index the path, query,
    header and cookie combinations. *)
Definition case_at (pc : params_combinations) (i : nat) : case_params :=
  let q := List.length (c_query_params pc) in
  let h := List.length (c_header_params pc) in
  let c := List.length (c_cookie_params pc) in
  (nth (i / (q * (h * c))) (c_path_params pc) [],
   (nth ((i / (h * c)) mod q) (c_query_params pc) [],
    (nth ((i / c) mod h) (c_header_params pc) [],
     nth (i mod c) (c_cookie_params pc) []))).

(** The number of cases of an operation. *)
Definition case_count (pc : params_combinations) : nat :=
  List.length (c_path_params pc) * List.length (c_query_params pc) *
  List.length (c_header_params pc) * List.length (c_cookie_params pc).

(** The combinations of the sample parameters at strict level 0. *)
Definition sample_combinations : params_combinations :=
  match generate_params 0 sample_params with
  | Ok pc => pc
  | Raise _ => mk_combinations [] [] [] []
  end.

(** The string holds no occurrence of the character. *)
Fixpoint free_of (c : ascii) (s : string) : Prop :=
  match s with
  | EmptyString => True
  | String a s' => a <> c /\ free_of c s'
  end.

(** The scheme types the security-case builder looks at. *)
Definition known_scheme (item : string * security_config) : bool :=
  String.eqb (fst item) "BasicAuth" || String.eqb (fst item) "apiKey".

(** ** Parser: [SwaggerV3Parser._parse_params]

    The module [swagger2locustio/parsers/swagger_v3.py] imports
    [SwaggerBaseParser] and nothing else: the name [deepcopy] that
    [_parse_params] calls is bound nowhere in it, so evaluating
    [deepcopy(param)] raises [NameError] before the dictionary is
    assigned to. *)

(** The exceptions of the parser: its one [raise], "Not full info about
    required param", and the unbound name. *)
Inductive parse_error : Type :=
| NotFullInfo
| NameError (name : string).

(** Truth value of an entry read with [.get] that holds a string. *)
Definition present (o : option string) : bool :=
  match o with
  | Some s => negb (String.eqb s "")
  | None => false
  end.

(** The loop over [params]; [param_data] is the dictionary built so far. *)
Fixpoint parse_loop (params : list param_config) (param_data : dict param_config)
    : result parse_error (dict param_config) :=
  match params with
  | [] => Ok param_data
  | param :: rest =>
      let param_name := p_name param in
      if negb (present param_name) || negb (present (p_in param)) then
        if truthy (p_required param) then Raise NotFullInfo
        else parse_loop rest param_data
      else Raise (NameError "deepcopy")
  end.

Definition _parse_params (params : list param_config)
    : result parse_error (dict param_config) :=
  parse_loop params [].

(** A parameter with a name and a location. *)
Definition complete (param : param_config) : bool :=
  present (p_name param) && present (p_in param).

(** A parameter the loop passes over: incomplete and not required. *)
Definition passed_over (param : param_config) : bool :=
  negb (complete param) && negb (truthy (p_required param)).

(** The fragment the security-case builder emits for one accepted
    scheme. *)
Definition security_fragment (l_templates : templates) (item : string * security_config)
    : list string :=
  if String.eqb (fst item) "BasicAuth" then [AUTH_BASIC_TEMPLATE l_templates]
  else if String.eqb (fst item) "apiKey"
  then [AUTH_KEY_HEADER_TEMPLATE l_templates (str_opt (sc_name (snd item)))]
  else [].

(** Templates whose test function is its name alone. *)
Definition name_only_templates : templates :=
  mk_templates (fun func_name _ _ _ _ _ _ => func_name)
    (fun _ val => val) (fun _ val => val) "" (fun name => name)
    (fun required_vars test_cases _ _ => required_vars +++ test_cases).

(** A specification with two operations that register placeholders. *)
Definition sample_paths_full : dict (dict method_data) :=
  [("/pets", [("get", mk_method (Some sample_params)); ("delete", sample_delete)]);
   ("/owners", [("post", sample_post)])].


(** * The combination enumerator *)

Section Combinations.

Context {A : Type}.

Lemma combinations_zero (pool : list A) : combinations pool 0 = [[]].
Proof. destruct pool; reflexivity. Qed.

Lemma combinations_length_elem (pool : list A) :
  forall r c, In c (combinations pool r) -> List.length c = r.
Proof.
  induction pool as [|x pool IH]; intros [|r] c Hin; simpl in Hin.
  - destruct Hin as [<-|[]]; reflexivity.
  - destruct Hin.
  - destruct Hin as [<-|[]]; reflexivity.
  - apply in_app_or in Hin as [Hin|Hin].
    + apply in_map_iff in Hin as (c' & <- & Hc'). simpl. f_equal. now apply IH.
    + now apply IH.
Qed.

Lemma combinations_too_many (pool : list A) :
  forall r, List.length pool < r -> combinations pool r = [].
Proof.
  induction pool as [|x pool IH]; intros [|r] Hlt; simpl in *; try lia; try reflexivity.
  rewrite (IH r), (IH (S r)) by lia. reflexivity.
Qed.

End Combinations.

Lemma combinations_map {A B : Type} (f : A -> B) (pool : list A) :
  forall r, combinations (map f pool) r = map (map f) (combinations pool r).
Proof.
  induction pool as [|x pool IH]; intros [|r]; simpl; try reflexivity.
  rewrite map_app, !map_map, IH, IH, map_map. reflexivity.
Qed.

Lemma flat_map_nil {A B : Type} (f : A -> list B) (l : list A) :
  (forall x, In x l -> f x = []) -> flat_map f l = [].
Proof.
  induction l as [|x l IH]; intros H; simpl; [reflexivity|].
  rewrite (H x) by now left. apply IH. intros y Hy. apply H. now right.
Qed.

Lemma flat_map_after_map {A B C : Type} (g : A -> B) (f : B -> list C) (l : list A) :
  flat_map f (map g l) = flat_map (fun x => f (g x)) l.
Proof.
  induction l as [|x l IH]; simpl; [reflexivity|]. now rewrite IH.
Qed.

(** The sum of the numbers of combinations of the sizes below [m]. *)
Lemma combinations_count_below {A : Type} (pool : list A) :
  forall m, List.length pool < m ->
    List.length (flat_map (combinations pool) (seq 0 m)) = 2 ^ List.length pool.
Proof.
  induction pool as [|x pool IH]; intros m Hm.
  - destruct m as [|m]; [simpl in Hm; lia|].
    cbn [seq flat_map]. rewrite length_app, combinations_zero.
    rewrite flat_map_nil; [reflexivity|].
    intros r Hr. apply in_seq in Hr. destruct r; [lia|reflexivity].
  - destruct m as [|m]; [simpl in Hm; lia|].
    cbn [seq flat_map]. rewrite length_app, combinations_zero.
    rewrite <- seq_shift, flat_map_after_map.
    cbn [List.length]. 
    assert (E : forall k a,
      List.length (flat_map (fun r => combinations (x :: pool) (S r)) (seq a k)) =
      List.length (flat_map (combinations pool) (seq a k)) +
      List.length (flat_map (combinations pool) (seq (S a) k))).
    { induction k as [|k IHk]; intros a; [reflexivity|].
      cbn [seq flat_map]. rewrite !length_app, IHk. cbn [combinations].
      rewrite length_app, length_map. lia. }
    rewrite E. simpl in Hm.
    rewrite (IH m) by lia.
    assert (E2 : 1 + List.length (flat_map (combinations pool) (seq 1 m)) =
                 List.length (flat_map (combinations pool) (seq 0 (S m)))).
    { cbn [seq flat_map]. rewrite length_app, combinations_zero. reflexivity. }
    assert (E3 : List.length (flat_map (combinations pool) (seq 0 (S m))) =
                 2 ^ List.length pool) by (apply IH; lia).
    simpl. lia.
Qed.

(** *** Combinations are drawn by position *)

Lemma pick_shift {A : Type} (x : A) (l : list A) (s : list nat) :
  pick (x :: l) (map S s) = pick l s.
Proof.
  unfold pick. rewrite flat_map_after_map. reflexivity.
Qed.

Lemma combinations_by_position {A : Type} (pool : list A) :
  forall r, combinations pool r = map (pick pool) (combinations (seq 0 (List.length pool)) r).
Proof.
  induction pool as [|x pool IH]; intros [|r]; try reflexivity.
  cbn [List.length seq combinations].
  rewrite <- seq_shift, !combinations_map, map_app, !map_map, (IH r), (IH (S r)), map_map.
  f_equal; apply map_ext; intros s.
  - change (pick (x :: pool) (0 :: map S s)) with (x :: pick (x :: pool) (map S s)).
    now rewrite pick_shift.
  - now rewrite pick_shift.
Qed.

Section Sorting.

Context {A : Type}.

Lemma StronglySorted_app (R : A -> A -> Prop) (l1 l2 : list A) :
  StronglySorted R l1 -> StronglySorted R l2 ->
  (forall x y, In x l1 -> In y l2 -> R x y) ->
  StronglySorted R (l1 ++ l2).
Proof.
  induction l1 as [|a l1 IH]; intros H1 H2 Hx; simpl; [exact H2|].
  apply StronglySorted_inv in H1 as [H1 Ha]. constructor.
  - apply IH; auto. intros x y Hin. apply Hx. now right.
  - apply Forall_app. split; [exact Ha|].
    apply Forall_forall. intros y Hy. apply Hx; [now left|exact Hy].
Qed.

Lemma StronglySorted_weaken (R R' : A -> A -> Prop) (l : list A) :
  (forall x y, In x l -> In y l -> R x y -> R' x y) ->
  StronglySorted R l -> StronglySorted R' l.
Proof.
  induction l as [|a l IH]; intros Himp H; [constructor|].
  apply StronglySorted_inv in H as [H Ha]. constructor.
  - apply IH; [|exact H]. intros x y Hin Hy. apply Himp; now right.
  - rewrite Forall_forall in *. intros y Hy. apply Himp; [now left|now right|auto].
Qed.

Lemma StronglySorted_NoDup (R : A -> A -> Prop) (l : list A) :
  (forall x, ~ R x x) -> StronglySorted R l -> NoDup l.
Proof.
  intros Hirr. induction 1 as [|a l _ IH Ha]; constructor; [|exact IH].
  intros Hin. rewrite Forall_forall in Ha. exact (Hirr a (Ha a Hin)).
Qed.

End Sorting.

Lemma StronglySorted_map_cons (a : nat) (l : list (list nat)) :
  StronglySorted lex_lt l -> StronglySorted lex_lt (map (cons a) l).
Proof.
  induction 1 as [|s l _ IH Hs]; simpl; constructor; [exact IH|].
  apply Forall_map. rewrite Forall_forall in *. intros t Ht.
  apply lex_lt_tail. now apply Hs.
Qed.

Lemma lex_lt_irrefl (s : list nat) : ~ lex_lt s s.
Proof.
  induction s as [|x s IH]; intros H; inversion H; subst; [lia|auto].
Qed.

Lemma subset_lt_irrefl (s : list nat) : ~ subset_lt s s.
Proof.
  intros [H|[_ H]]; [lia|exact (lex_lt_irrefl s H)].
Qed.

(** The combinations of the positions [a, a+1, ..., a+n-1]. *)
Lemma in_combinations_seq (n : nat) :
  forall a r s,
    In s (combinations (seq a n) r) <->
    increasing s /\ Forall (fun i => a <= i < a + n) s /\ List.length s = r.
Proof.
  unfold increasing.
  induction n as [|n IH]; intros a r s.
  - destruct r as [|r]; simpl.
    + split.
      * intros [<-|[]]. repeat split; constructor.
      * intros (_ & _ & Hl). destruct s; [now left|discriminate].
    + split; [intros []|]. intros (_ & Hb & Hl).
      destruct s as [|i s]; [discriminate|]. inversion Hb; subst. lia.
  - destruct r as [|r].
    + rewrite combinations_zero. simpl. split.
      * intros [<-|[]]. repeat split; constructor.
      * intros (_ & _ & Hl). destruct s; [now left|discriminate].
    + cbn [seq combinations]. rewrite in_app_iff, in_map_iff. split.
      * intros [(s' & <- & Hs')|Hs].
        -- apply IH in Hs' as (Hinc & Hb & Hl). repeat split.
           ++ constructor; [exact Hinc|]. rewrite Forall_forall in *.
              intros i Hi. specialize (Hb i Hi). lia.
           ++ constructor; [lia|]. rewrite Forall_forall in *.
              intros i Hi. specialize (Hb i Hi). lia.
           ++ simpl. now rewrite Hl.
        -- apply IH in Hs as (Hinc & Hb & Hl). repeat split; auto.
           rewrite Forall_forall in *. intros i Hi. specialize (Hb i Hi). lia.
      * intros (Hinc & Hb & Hl). destruct s as [|i s]; [discriminate|].
        apply StronglySorted_inv in Hinc as [Hinc Hi].
        inversion Hb as [|? ? Hi0 Hb']; subst.
        destruct (Nat.eq_dec i a) as [->|Hne].
        -- left. exists s. split; [reflexivity|]. apply IH. repeat split.
           ++ exact Hinc.
           ++ rewrite Forall_forall in *. intros j Hj.
              specialize (Hi j Hj). specialize (Hb' j Hj). lia.
           ++ simpl in Hl. lia.
        -- right. apply IH. repeat split.
           ++ constructor; assumption.
           ++ constructor; [lia|]. rewrite Forall_forall in *. intros j Hj.
              specialize (Hi j Hj). specialize (Hb' j Hj). lia.
           ++ exact Hl.
Qed.

Lemma combinations_seq_sorted (n : nat) :
  forall a r, StronglySorted lex_lt (combinations (seq a n) r).
Proof.
  induction n as [|n IH]; intros a [|r].
  - simpl. repeat constructor.
  - simpl. constructor.
  - rewrite combinations_zero. repeat constructor.
  - cbn [seq combinations]. apply StronglySorted_app.
    + apply StronglySorted_map_cons, IH.
    + apply IH.
    + intros x y Hx Hy. apply in_map_iff in Hx as (x' & <- & _).
      apply in_combinations_seq in Hy as (_ & Hb & Hl).
      destruct y as [|b y]; [discriminate|].
      inversion Hb; subst. apply lex_lt_head. lia.
Qed.

Lemma in_index_subsets (n : nat) (s : list nat) :
  In s (index_subsets n) <-> increasing s /\ Forall (fun i => i < n) s.
Proof.
  unfold index_subsets. rewrite in_flat_map. split.
  - intros (r & _ & Hs). apply in_combinations_seq in Hs as (Hinc & Hb & _).
    split; [exact Hinc|]. rewrite Forall_forall in *. intros i Hi.
    specialize (Hb i Hi). lia.
  - intros [Hinc Hb].
    assert (Hin : In s (combinations (seq 0 n) (List.length s))).
    { apply in_combinations_seq. repeat split; auto.
      rewrite Forall_forall in *. intros i Hi. specialize (Hb i Hi). lia. }
    exists (List.length s). split; [|exact Hin].
    apply in_seq. split; [lia|].
    destruct (Nat.lt_ge_cases n (List.length s)) as [Hlt|Hge]; [|lia].
    rewrite combinations_too_many in Hin by (now rewrite length_seq).
    destruct Hin.
Qed.

Lemma index_subsets_sorted (n : nat) : StronglySorted subset_lt (index_subsets n).
Proof.
  unfold index_subsets. generalize (n + 1) as k. generalize 0 at 2 as a.
  intros a k. revert a. induction k as [|k IH]; intros a; [constructor|].
  cbn [seq flat_map]. apply StronglySorted_app.
  - apply StronglySorted_weaken with (R := lex_lt); [|apply combinations_seq_sorted].
    intros x y Hx Hy Hlt. right. split; [|exact Hlt].
    apply combinations_length_elem in Hx, Hy. congruence.
  - apply IH.
  - intros x y Hx Hy. left.
    apply combinations_length_elem in Hx.
    apply in_flat_map in Hy as (b & Hb & Hy).
    apply combinations_length_elem in Hy. apply in_seq in Hb. lia.
Qed.

Lemma map_over_flat_map {A B C : Type} (g : B -> C) (f : A -> list B) (l : list A) :
  map g (flat_map f l) = flat_map (fun x => map g (f x)) l.
Proof.
  induction l as [|x l IH]; simpl; [reflexivity|]. now rewrite map_app, IH.
Qed.

Lemma length_index_subsets (n : nat) : List.length (index_subsets n) = 2 ^ n.
Proof.
  unfold index_subsets.
  rewrite combinations_count_below; rewrite length_seq; [reflexivity|lia].
Qed.

Lemma create_params_combinations_positions (R O : list param_config) :
  _create_params_combinations (mk_bucket R O) =
  map (fun s => R ++ pick O s) (index_subsets (List.length O)).
Proof.
  unfold _create_params_combinations, index_subsets. cbn [required not_required].
  rewrite map_over_flat_map. apply flat_map_ext. intros r.
  rewrite combinations_by_position, map_map. reflexivity.
Qed.

(** C3: for a bucket with required sequence [R] and optional sequence [O]
    of length [n], the enumerator yields [R ++ pick O s] for each set [s]
    of positions of [O] exactly once ([index_subsets n] holds every
    strictly increasing list of positions below [n], without repetition),
    so [2 ^ n] combinations; the position sets come by increasing size
    and, within a size, in lexicographic order; every combination starts
    with [R], hence contains all of it. *)
Theorem create_params_combinations_powerset (R O : list param_config) :
  let out := _create_params_combinations (mk_bucket R O) in
  let n := List.length O in
  out = map (fun s => R ++ pick O s) (index_subsets n)
  /\ List.length out = 2 ^ n
  /\ (forall s, In s (index_subsets n) <-> increasing s /\ Forall (fun i => i < n) s)
  /\ NoDup (index_subsets n)
  /\ StronglySorted subset_lt (index_subsets n)
  /\ (forall c, In c out ->
        incl R c /\ exists s, c = R ++ s /\ List.length s <= n).
Proof.
  intros out n. subst out n.
  rewrite create_params_combinations_positions.
  split; [reflexivity|]. split; [now rewrite length_map, length_index_subsets|].
  split; [intros s; apply in_index_subsets|].
  split; [apply (StronglySorted_NoDup subset_lt);
          [exact subset_lt_irrefl|apply index_subsets_sorted]|].
  split; [apply index_subsets_sorted|].
  intros c Hc. apply in_map_iff in Hc as (s & <- & Hs). split.
  - intros x Hx. apply in_or_app. now left.
  - exists (pick O s). split; [reflexivity|].
    apply in_index_subsets in Hs as [Hinc Hb].
    assert (Hl : List.length (pick O s) <= List.length s).
    { clear. induction s as [|i s IH]; simpl; [lia|].
      rewrite length_app. destruct (nth_error O i); simpl; lia. }
    assert (Hs : List.length s <= List.length O).
    { assert (Hin : In s (index_subsets (List.length O)))
        by (apply in_index_subsets; split; assumption).
      unfold index_subsets in Hin. apply in_flat_map in Hin as (r & Hr & Hin).
      apply combinations_length_elem in Hin. apply in_seq in Hr. lia. }
    lia.
Qed.

Example create_params_combinations_sample :
  map (map p_name)
    (_create_params_combinations
       (mk_bucket [sample_id] [sample_limit; sample_page; sample_trace])) =
  [[Some "id"];
   [Some "id"; Some "limit"]; [Some "id"; Some "page"]; [Some "id"; Some "trace"];
   [Some "id"; Some "limit"; Some "page"]; [Some "id"; Some "limit"; Some "trace"];
   [Some "id"; Some "page"; Some "trace"];
   [Some "id"; Some "limit"; Some "page"; Some "trace"]].
Proof. reflexivity. Qed.

(** * The parameter extractor *)

(** The first element a search finds, and what comes before it. *)
Lemma find_first {X : Type} (f : X -> bool) (l : list X) (x : X) :
  find f l = Some x ->
  exists before after,
    l = before ++ x :: after /\ Forall (fun y => f y = false) before /\ f x = true.
Proof.
  induction l as [|y l IH]; cbn [find]; [discriminate|].
  destruct (f y) eqn:E.
  - intros H. injection H as ->. exists [], l. repeat split; [constructor|exact E].
  - intros H. destruct (IH H) as (before & after & -> & Hb & Hx).
    exists (y :: before), after. repeat split; [constructor; assumption|exact Hx].
Qed.

Lemma bucket_app_empty (b : bucket) : bucket_app b empty_bucket = b.
Proof. destruct b. unfold bucket_app. simpl. now rewrite !app_nil_r. Qed.

Lemma extracted_app_empty (e : extracted) : extracted_app e empty_extracted = e.
Proof.
  destruct e. unfold extracted_app. simpl. now rewrite !bucket_app_empty.
Qed.

(** One step of the loop, when the parameter is not rejected. *)
Lemma extract_step_accepts (lvl : nat) (e : extracted) (param : string) (cfg : param_config) :
  rejected lvl cfg = false ->
  extract_step lvl e (param, cfg) = Ok (extracted_app e (buckets_of lvl [(param, cfg)])).
Proof.
  unfold rejected, valid_location, extract_step, buckets_of, bucket_of, located_at,
    included, has_default, is_required, extracted_app, bucket_app.
  intros Hrej. cbn [map snd filter].
  destruct (select_target (p_in cfg)) as [t|]; [|discriminate].
  destruct lvl as [|[|[|lvl]]]; cbn [Nat.eqb andb orb negb] in *.
  - destruct e as [[] [] [] []], t, (truthy (p_required cfg)); cbn;
      rewrite ?app_nil_r; reflexivity.
  - destruct e as [[] [] [] []], t, (truthy (p_required cfg)), (truthy (p_default cfg));
      cbn; rewrite ?app_nil_r; reflexivity.
  - destruct (truthy (p_default cfg)); [|discriminate].
    destruct e as [[] [] [] []], t, (truthy (p_required cfg));
      cbn; rewrite ?app_nil_r; reflexivity.
  - destruct e as [[] [] [] []], t, (truthy (p_required cfg));
      cbn; rewrite ?app_nil_r; reflexivity.
Qed.

Lemma extract_step_rejects (lvl : nat) (e : extracted) (param : string) (cfg : param_config) :
  rejected lvl cfg = true ->
  extract_step lvl e (param, cfg) = Raise (rejection param cfg).
Proof.
  unfold rejected, rejection, extract_step, valid_location, has_default.
  intros Hrej.
  destruct (select_target (p_in cfg)) as [t|]; [|reflexivity].
  destruct lvl as [|[|[|lvl]]]; cbn [Nat.eqb andb orb negb] in *; try discriminate.
  destruct (truthy (p_default cfg)); [discriminate|reflexivity].
Qed.

Lemma buckets_of_cons (lvl : nat) (item : string * param_config) (params : dict param_config) :
  buckets_of lvl (item :: params) =
  extracted_app (buckets_of lvl [item]) (buckets_of lvl params).
Proof.
  unfold buckets_of, bucket_of, extracted_app, bucket_app. cbn [map filter required not_required
    path_params query_params header_params cookie_params].
  repeat match goal with
  | |- context [if ?c then _ else _] => destruct c
  end; reflexivity.
Qed.

Lemma extracted_app_assoc (e f g : extracted) :
  extracted_app (extracted_app e f) g = extracted_app e (extracted_app f g).
Proof.
  unfold extracted_app, bucket_app. simpl. now rewrite !app_assoc.
Qed.

(** The loop from any accumulated buckets. *)
Lemma extract_loop_spec (lvl : nat) (params : dict param_config) :
  forall e,
    extract_loop lvl params e =
    match extract_spec lvl params with
    | Raise err => Raise err
    | Ok f => Ok (extracted_app e f)
    end.
Proof.
  unfold extract_spec.
  induction params as [|[param cfg] params IH]; intros e.
  - simpl. f_equal. symmetry. apply extracted_app_empty.
  - cbn [extract_loop find snd]. destruct (rejected lvl cfg) eqn:Hrej.
    + now rewrite extract_step_rejects.
    + rewrite extract_step_accepts by exact Hrej. rewrite IH.
      destruct (find _ params) as [[p c]|]; [reflexivity|].
      now rewrite (buckets_of_cons lvl (param, cfg) params), extracted_app_assoc.
Qed.

Lemma extracted_app_empty_l (e : extracted) : extracted_app empty_extracted e = e.
Proof. destruct e as [[] [] [] []]. reflexivity. Qed.

(** [_extract_params] raises on the first rejected parameter and
    otherwise files every included parameter under its location and
    requiredness, in declaration order. *)
Lemma extract_params_spec (lvl : nat) (params : dict param_config) :
  _extract_params lvl params = extract_spec lvl params.
Proof.
  unfold _extract_params. rewrite extract_loop_spec.
  destruct (extract_spec lvl params); [|reflexivity].
  now rewrite extracted_app_empty_l.
Qed.

(** * The case assembler *)

Lemma fold_left_pointwise {S X : Type} (f g : S -> X -> S) (l : list X) :
  (forall a x, f a x = g a x) -> forall a, fold_left f l a = fold_left g l a.
Proof.
  intros Hfg. induction l as [|x l IH]; intros a; simpl; [reflexivity|].
  now rewrite Hfg, IH.
Qed.

Lemma fold_left_map_arg {S X Y : Type} (h : Y -> X) (f : S -> X -> S) (l : list Y) :
  forall a, fold_left f (map h l) a = fold_left (fun a y => f a (h y)) l a.
Proof.
  induction l as [|y l IH]; intros a; simpl; [reflexivity|]. apply IH.
Qed.

(** Two nested loops are one loop over the product, outer factor
    slowest. *)
Lemma fold_left_nested {S X Y : Type} (f : S -> X -> Y -> S) (xs : list X) (ys : list Y) :
  forall a,
    fold_left (fun a x => fold_left (fun a y => f a x y) ys a) xs a =
    fold_left (fun a xy => f a (fst xy) (snd xy)) (list_prod xs ys) a.
Proof.
  induction xs as [|x xs IH]; intros a; [reflexivity|].
  cbn [list_prod fold_left].
  rewrite fold_left_app, (fold_left_map_arg (fun y => (x, y))). cbn [fst snd]. apply IH.
Qed.

Section Assembler.

Variable l_templates : templates.
Variable py : builtins.

Lemma block_registrations_cons (param : param_config) (rest : list param_config)
    (test_count : nat) :
  block_registrations (param :: rest) test_count =
  if has_default param then block_registrations rest test_count
  else (placeholder (p_name param) test_count, param) :: block_registrations rest test_count.
Proof.
  unfold block_registrations. cbn [filter]. destruct (has_default param); reflexivity.
Qed.

Lemma format_loop_spec (raw_params : list param_config) (test_count : nat)
    (param_type : string) :
  forall params vars,
    format_loop l_templates py raw_params test_count param_type params vars =
    (params ++ map (render_pair l_templates py param_type test_count) raw_params,
     register (block_registrations raw_params test_count) vars).
Proof.
  induction raw_params as [|param rest IH]; intros params vars.
  - simpl. now rewrite app_nil_r.
  - cbn [format_loop]. rewrite block_registrations_cons. cbn [map].
    unfold has_default.
    destruct (truthy (p_default param)) eqn:E; cbn [negb];
      rewrite IH, <- app_assoc; cbn [app register fold_left fst snd];
      unfold render_pair, resolve, has_default; rewrite E; reflexivity.
Qed.

(** The formatted block does not depend on the placeholder table, and the
    table only receives the block's registrations. *)
Lemma format_params_spec (raw_params : list param_config) (test_count : nat)
    (param_type : string) (vars : dict param_config) :
  _format_params l_templates py raw_params test_count param_type vars =
  (formatted l_templates py raw_params test_count param_type,
   register (block_registrations raw_params test_count) vars).
Proof.
  unfold _format_params. rewrite format_loop_spec. reflexivity.
Qed.

Lemma register_app (ws ws' : registrations) (vars : dict param_config) :
  register (ws ++ ws') vars = register ws' (register ws vars).
Proof. apply fold_left_app. Qed.

Lemma emit_case_spec (method path : string) (test_count : nat) (c : case_params)
    (a : cases_acc) :
  emit_case l_templates py method path test_count
    (fst c) (fst (snd c)) (fst (snd (snd c))) (snd (snd (snd c))) a =
  mk_acc (funcs a ++ [case_func l_templates py method path test_count (case a) c])
    (S (case a)) (register (case_registrations test_count c) (vars a)).
Proof.
  destruct c as (pp & qp & hp & cp). unfold emit_case. cbn [fst snd].
  rewrite !format_params_spec. unfold case_registrations.
  now rewrite !register_app.
Qed.

(** The four nested loops are one loop over the cross product. *)
Lemma cases_loop_flat (method path : string) (test_count : nat) (pc : params_combinations)
    (a : cases_acc) :
  cases_loop l_templates py method path test_count pc a =
  fold_left (fun a c =>
      emit_case l_templates py method path test_count
        (fst c) (fst (snd c)) (fst (snd (snd c))) (snd (snd (snd c))) a)
    (cross pc) a.
Proof.
  unfold cases_loop, cross.
  rewrite <- (fold_left_nested
    (fun a pp (r : list param_config * (list param_config * list param_config)) =>
       emit_case l_templates py method path test_count
         pp (fst r) (fst (snd r)) (snd (snd r)) a)).
  apply fold_left_pointwise. intros b pp.
  rewrite <- (fold_left_nested
    (fun a qp (r : list param_config * list param_config) =>
       emit_case l_templates py method path test_count pp qp (fst r) (snd r) a)).
  apply fold_left_pointwise. intros b' qp.
  rewrite <- (fold_left_nested
    (fun a hp cp => emit_case l_templates py method path test_count pp qp hp cp a)).
  reflexivity.
Qed.

Lemma cases_loop_spec (method path : string) (test_count : nat) (pc : params_combinations) :
  forall a,
    cases_loop l_templates py method path test_count pc a =
    mk_acc
      (funcs a ++ case_funcs l_templates py method path test_count (case a) (cross pc))
      (case a + List.length (cross pc))
      (register (flat_map (case_registrations test_count) (cross pc)) (vars a)).
Proof.
  intros a. rewrite cases_loop_flat. revert a.
  induction (cross pc) as [|c cs IH]; intros a.
  - destruct a. simpl. now rewrite app_nil_r, Nat.add_0_r.
  - cbn [fold_left]. rewrite emit_case_spec, IH. cbn [funcs case vars case_funcs flat_map].
    rewrite <- app_assoc, register_app. cbn [List.length app]. f_equal. lia.
Qed.

End Assembler.

(** * Dictionaries and the placeholder table *)

Section Dict.

Context {V : Type}.

Lemma dict_get_set_same (k : string) (v : V) (d : dict V) :
  dict_get k (dict_set k v d) = Some v.
Proof.
  induction d as [|[k' v'] d IH]; cbn [dict_set dict_get].
  - now rewrite String.eqb_refl.
  - destruct (String.eqb k' k) eqn:E; cbn [dict_get]; rewrite E; [reflexivity|exact IH].
Qed.

Lemma dict_get_set_other (k k' : string) (v : V) (d : dict V) :
  k <> k' -> dict_get k' (dict_set k v d) = dict_get k' d.
Proof.
  intros Hne. induction d as [|[k1 v1] d IH]; cbn [dict_set dict_get].
  - destruct (String.eqb k k') eqn:E; [apply String.eqb_eq in E; contradiction|reflexivity].
  - destruct (String.eqb k1 k) eqn:E; cbn [dict_get].
    + apply String.eqb_eq in E. subst k1.
      destruct (String.eqb k k') eqn:E'; [apply String.eqb_eq in E'; contradiction|].
      reflexivity.
    + destruct (String.eqb k1 k'); [reflexivity|exact IH].
Qed.

Lemma dict_get_set (k k' : string) (v : V) (d : dict V) :
  dict_get k' (dict_set k v d) = if String.eqb k k' then Some v else dict_get k' d.
Proof.
  destruct (String.eqb k k') eqn:E.
  - apply String.eqb_eq in E. subst. apply dict_get_set_same.
  - apply dict_get_set_other. intros ->. now rewrite String.eqb_refl in E.
Qed.

(** Assignment keeps the keys in place and appends a new one. *)
Lemma keys_set (k : string) (v : V) (d : dict V) :
  keys (dict_set k v d) = if existsb (String.eqb k) (keys d) then keys d else keys d ++ [k].
Proof.
  induction d as [|[k' v'] d IH]; [reflexivity|].
  cbn [dict_set keys map fst existsb]. rewrite (String.eqb_sym k k').
  destruct (String.eqb k' k) eqn:E; cbn [keys map fst orb]; [reflexivity|].
  fold (keys d). fold (keys (dict_set k v d)). rewrite IH.
  destruct (existsb (String.eqb k) (keys d)); reflexivity.
Qed.

Lemma existsb_eqb_In (k : string) (l : list string) :
  existsb (String.eqb k) l = true <-> In k l.
Proof.
  rewrite existsb_exists. split.
  - intros (x & Hx & E). apply String.eqb_eq in E. now subst.
  - intros H. exists k. split; [exact H|apply String.eqb_refl].
Qed.

Lemma in_keys_set (k k' : string) (v : V) (d : dict V) :
  In k' (keys (dict_set k v d)) <-> k' = k \/ In k' (keys d).
Proof.
  rewrite keys_set. destruct (existsb (String.eqb k) (keys d)) eqn:E.
  - apply existsb_eqb_In in E. split; [now right|]. intros [->|H]; assumption.
  - rewrite in_app_iff. cbn [In]. intuition congruence.
Qed.

Lemma NoDup_keys_set (k : string) (v : V) (d : dict V) :
  NoDup (keys d) -> NoDup (keys (dict_set k v d)).
Proof.
  intros Hnd. rewrite keys_set. destruct (existsb (String.eqb k) (keys d)) eqn:E; [exact Hnd|].
  assert (Hnot : ~ In k (keys d)).
  { intros H. apply existsb_eqb_In in H. congruence. }
  apply NoDup_rev in Hnd. rewrite <- (rev_involutive (keys d ++ [k])).
  apply NoDup_rev. rewrite rev_app_distr. cbn. constructor; [|exact Hnd].
  now rewrite <- in_rev.
Qed.


Lemma dict_get_none (k : string) (d : dict V) :
  dict_get k d = None <-> ~ In k (keys d).
Proof.
  induction d as [|[k' v'] d IH]; cbn [dict_get keys map fst In]; [tauto|].
  fold (keys d). destruct (String.eqb k' k) eqn:E.
  - apply String.eqb_eq in E. split; [discriminate|]. intros H. exfalso. apply H. now left.
  - rewrite IH. split.
    + intros H [->|H']; [now rewrite String.eqb_refl in E|contradiction].
    + intros H H'. apply H. now right.
Qed.

(** A dictionary is its keys, in order, and their values. *)
Lemma dict_ext (d d' : dict V) :
  NoDup (keys d) -> keys d = keys d' ->
  (forall k, dict_get k d = dict_get k d') -> d = d'.
Proof.
  revert d'. induction d as [|[k v] d IH]; intros [|[k' v'] d'] Hnd Hk Hg; try discriminate.
  - reflexivity.
  - cbn [keys map fst] in Hk. injection Hk as <- Hk.
    pose proof (Hg k) as Hgk. cbn [dict_get] in Hgk. rewrite String.eqb_refl in Hgk.
    injection Hgk as <-. f_equal.
    cbn [keys map fst] in Hnd. apply NoDup_cons_iff in Hnd as [Hnot Hnd].
    apply IH; auto. intros k1. specialize (Hg k1). cbn [dict_get] in Hg.
    destruct (String.eqb k k1) eqn:E; [|exact Hg].
    apply String.eqb_eq in E. subst k1.
    assert (H1 : dict_get k d = None) by (now apply dict_get_none).
    assert (H2 : dict_get k d' = None).
    { apply dict_get_none. fold (keys d) in Hnot. unfold keys in *. now rewrite <- Hk. }
    congruence.
Qed.

End Dict.

(** *** Registering placeholders *)

Lemma register_cons (k : string) (p : param_config) (ws : registrations)
    (d : dict param_config) :
  register ((k, p) :: ws) d = register ws (dict_set k p d).
Proof. reflexivity. Qed.

(** Each key holds its last registration. *)
Lemma dict_get_register (k : string) (ws : registrations) :
  forall d,
    dict_get k (register ws d) =
    match last_registered k ws with
    | Some p => Some p
    | None => dict_get k d
    end.
Proof.
  induction ws as [|[k' p] ws IH]; intros d; [reflexivity|].
  rewrite register_cons, IH. cbn [last_registered].
  destruct (last_registered k ws); [reflexivity|].
  rewrite dict_get_set. destruct (String.eqb k' k); reflexivity.
Qed.

Lemma NoDup_keys_register (ws : registrations) :
  forall d, NoDup (keys d) -> NoDup (keys (register ws d)).
Proof.
  induction ws as [|[k p] ws IH]; intros d Hnd; [exact Hnd|].
  rewrite register_cons. apply IH. now apply NoDup_keys_set.
Qed.

Lemma in_keys_register (k : string) (ws : registrations) :
  forall d, In k (keys (register ws d)) <-> In k (map fst ws) \/ In k (keys d).
Proof.
  induction ws as [|[k' p] ws IH]; intros d; [cbn; tauto|].
  rewrite register_cons, IH, in_keys_set. cbn [map fst In]. intuition congruence.
Qed.

(** Registrations under keys the table already has change no position. *)
Lemma keys_register_known (ws : registrations) :
  forall d, (forall k, In k (map fst ws) -> In k (keys d)) ->
    keys (register ws d) = keys d.
Proof.
  induction ws as [|[k p] ws IH]; intros d Hin; [reflexivity|].
  rewrite register_cons.
  assert (Hk : keys (dict_set k p d) = keys d).
  { rewrite keys_set.
    destruct (existsb (String.eqb k) (keys d)) eqn:E; [reflexivity|].
    assert (In k (keys d)) as H by (apply Hin; now left).
    apply existsb_eqb_In in H. congruence. }
  rewrite IH; [exact Hk|]. intros k' Hk'. rewrite Hk. apply Hin. now right.
Qed.

Lemma last_registered_in (k : string) (ws : registrations) (p : param_config) :
  last_registered k ws = Some p -> In (k, p) ws.
Proof.
  induction ws as [|[k' q] ws IH]; cbn [last_registered]; [discriminate|].
  destruct (last_registered k ws) as [q'|].
  - intros H. injection H as ->. right. now apply IH.
  - destruct (String.eqb k' k) eqn:E; [|discriminate].
    intros H. injection H as ->. apply String.eqb_eq in E. subst. now left.
Qed.


(** The last registration of a list that ends with one under [k]. *)
Lemma last_registered_last (k : string) (ws ws' : registrations) (p : param_config) :
  ~ In k (map fst ws') -> last_registered k (ws ++ (k, p) :: ws') = Some p.
Proof.
  intros Hnot. induction ws as [|[k' q] ws IH].
  - cbn [app last_registered].
    destruct (last_registered k ws') as [q|] eqn:E.
    + apply last_registered_in in E. exfalso. apply Hnot.
      apply in_map_iff. now exists (k, q).
    + now rewrite String.eqb_refl.
  - cbn [app last_registered]. now rewrite IH.
Qed.

(** Running the same registrations again changes nothing. *)
Lemma register_idempotent (ws : registrations) (d : dict param_config) :
  NoDup (keys d) -> register ws (register ws d) = register ws d.
Proof.
  intros Hnd. apply dict_ext.
  - now apply NoDup_keys_register, NoDup_keys_register.
  - apply keys_register_known. intros k Hk. apply in_keys_register. now left.
  - intros k. rewrite !dict_get_register. destruct (last_registered k ws); reflexivity.
Qed.

(** * The orchestrator's loop over operations *)

Section Orchestrator.

Variable l_templates : templates.
Variable py : builtins.
Variable strict_level : nat.

Local Abbreviation op_out := (op_outcome l_templates py strict_level).
Local Abbreviation run_out := (run_outcome l_templates py strict_level).
Local Abbreviation m_step := (method_step l_templates py strict_level).
Local Abbreviation p_loop := (paths_loop l_templates py strict_level).
Local Abbreviation gen_cases := (generate_test_cases l_templates py strict_level).

Lemma method_step_spec (path : string) (r : run) (item : string * method_data) :
  m_step path r item = apply_outcome (op_out (path, item) (r_test_count r)) r.
Proof.
  destruct item as [method md]. unfold method_step, op_outcome, apply_outcome.
  destruct (generate_params strict_level (get_params md)) as [pc|error].
  - rewrite cases_loop_spec.
    cbn [funcs vars o_funcs o_registrations o_warnings o_next].
    now rewrite app_nil_r.
  - destruct r as [fs tc [vs ws]]. cbn. now rewrite app_nil_r.
Qed.

Lemma paths_loop_flat (paths_data : dict (dict method_data)) :
  forall r,
    p_loop paths_data r =
    fold_left (fun r op => m_step (fst op) r (snd op)) (operations paths_data) r.
Proof.
  unfold paths_loop, operations.
  induction paths_data as [|[path methods_data] paths_data IH]; intros r; [reflexivity|].
  cbn [fold_left flat_map]. rewrite fold_left_app, fold_left_map_arg. cbn [fst snd].
  apply IH.
Qed.

Lemma run_outcome_spec (ops : list operation) :
  forall r,
    fold_left (fun r op => m_step (fst op) r (snd op)) ops r =
    apply_outcome (run_out ops (r_test_count r)) r.
Proof.
  induction ops as [|[path item] ops IH]; intros r.
  - destruct r as [fs tc [vs ws]]. unfold apply_outcome. cbn. now rewrite !app_nil_r.
  - cbn [fold_left fst snd run_outcome]. rewrite method_step_spec, IH.
    unfold apply_outcome. cbn [r_funcs r_test_count r_state vars_without_values warnings
      o_funcs o_registrations o_warnings o_next].
    now rewrite !app_assoc, register_app.
Qed.

(** The loops over paths and methods add the outcome of the operations. *)
Lemma paths_loop_spec (paths_data : dict (dict method_data)) (r : run) :
  p_loop paths_data r =
  apply_outcome (run_out (operations paths_data) (r_test_count r)) r.
Proof. rewrite paths_loop_flat. apply run_outcome_spec. Qed.

Lemma generate_test_cases_spec (paths_data : dict (dict method_data)) (s : state) :
  gen_cases paths_data s =
  let o := run_out (operations paths_data) 0 in
  (String.concat "" (o_funcs o),
   mk_state (register (o_registrations o) (vars_without_values s))
     (warnings s ++ o_warnings o)).
Proof.
  unfold generate_test_cases. rewrite paths_loop_spec. reflexivity.
Qed.

Lemma run_outcome_app (ops ops' : list operation) :
  forall tc,
    run_out (ops ++ ops') tc =
    outcome_app (run_out ops tc) (run_out ops' (o_next (run_out ops tc))).
Proof.
  induction ops as [|op ops IH]; intros tc.
  - cbn. destruct (run_out ops' tc). reflexivity.
  - cbn [app run_outcome]. rewrite IH. unfold outcome_app.
    cbn [o_funcs o_registrations o_warnings o_next]. now rewrite !app_assoc.
Qed.

(** An operation whose extraction raises adds a warning and nothing
    else, and leaves the sequence number as it was. *)
Lemma op_outcome_raise (path method : string) (md : method_data) (e : value_error) (tc : nat) :
  generate_params strict_level (get_params md) = Raise e ->
  op_out (path, (method, md)) tc = mk_outcome [] [] [e] tc.
Proof. intros H. unfold op_outcome. now rewrite H. Qed.

Lemma run_outcome_skip (pre post : list operation) (path method : string)
    (md : method_data) (e : value_error) (tc : nat) :
  generate_params strict_level (get_params md) = Raise e ->
  let o := run_out (pre ++ (path, (method, md)) :: post) tc in
  let o' := run_out (pre ++ post) tc in
  o_funcs o = o_funcs o' /\ o_registrations o = o_registrations o' /\
  o_next o = o_next o' /\
  o_warnings o =
    o_warnings (run_out pre tc) ++ e ::
    o_warnings (run_out post (o_next (run_out pre tc))) /\
  o_warnings o' =
    o_warnings (run_out pre tc) ++
    o_warnings (run_out post (o_next (run_out pre tc))).
Proof.
  intros H. cbn zeta. rewrite !run_outcome_app.
  cbn [run_outcome]. rewrite (op_outcome_raise _ _ _ _ _ H).
  unfold outcome_app. cbn. repeat split.
Qed.

Lemma operations_app (ps ps' : dict (dict method_data)) :
  operations (ps ++ ps') = operations ps ++ operations ps'.
Proof. unfold operations. apply flat_map_app. Qed.

Lemma operations_cons (path : string) (ms : dict method_data)
    (ps : dict (dict method_data)) :
  operations ((path, ms) :: ps) = map (pair path) ms ++ operations ps.
Proof. reflexivity. Qed.

(** The operations around the one with method [method] of path [path]. *)
Lemma operations_split (ps1 ps2 : dict (dict method_data)) (path : string)
    (ms1 ms2 : dict method_data) (item : string * method_data) :
  operations (ps1 ++ (path, ms1 ++ item :: ms2) :: ps2) =
    (operations ps1 ++ map (pair path) ms1) ++ (path, item) ::
    (map (pair path) ms2 ++ operations ps2)
  /\ operations (ps1 ++ (path, ms1 ++ ms2) :: ps2) =
    (operations ps1 ++ map (pair path) ms1) ++ (map (pair path) ms2 ++ operations ps2).
Proof.
  rewrite !operations_app, !operations_cons, !map_app. cbn [map].
  rewrite <- !app_assoc. split; reflexivity.
Qed.

End Orchestrator.

(** * An operation whose extraction raises *)

Section SkippedOperation.

Variable l_templates : templates.
Variable py : builtins.
Variable strict_level : nat.

Local Abbreviation gen_cases := (generate_test_cases l_templates py strict_level).
Local Abbreviation gen_file := (generate_locustfile l_templates py strict_level).

(** The run with the failing operation and the run without it produce
    the same test functions and the same placeholder table; the only
    difference is the warning. *)
Lemma failed_operation_skipped (ps1 ps2 : dict (dict method_data)) (path method : string)
    (ms1 ms2 : dict method_data) (md : method_data) (e : value_error) (s : state) :
  generate_params strict_level (get_params md) = Raise e ->
  let paths := ps1 ++ (path, ms1 ++ (method, md) :: ms2) :: ps2 in
  let others := ps1 ++ (path, ms1 ++ ms2) :: ps2 in
  fst (gen_cases paths s) = fst (gen_cases others s)
  /\ vars_without_values (snd (gen_cases paths s)) =
     vars_without_values (snd (gen_cases others s))
  /\ exists w1 w2,
       warnings (snd (gen_cases paths s)) = w1 ++ e :: w2 /\
       warnings (snd (gen_cases others s)) = w1 ++ w2.
Proof.
  intros H paths others. subst paths others.
  rewrite !generate_test_cases_spec.
  destruct (operations_split ps1 ps2 path ms1 ms2 (method, md)) as [-> ->].
  destruct (run_outcome_skip l_templates py strict_level
              (operations ps1 ++ map (pair path) ms1)
              (map (pair path) ms2 ++ operations ps2) path method md e 0 H)
    as (Hf & Hr & _ & Hw & Hw').
  cbn zeta. cbn [fst snd vars_without_values warnings].
  rewrite Hf, Hr, Hw, Hw'. split; [reflexivity|]. split; [reflexivity|].
  eexists. eexists. split.
  - rewrite app_assoc. reflexivity.
  - rewrite app_assoc. reflexivity.
Qed.

(** The generated file reads the state only through the placeholder
    table. *)
Lemma generate_locustfile_result (data : swagger_data) (s : state) :
  fst (gen_file data s) =
  let tc := gen_cases (sw_paths data) s in
  match sw_security data with
  | [] => Ok (generate_code_from_template l_templates py (fst tc) None (sw_host data) (snd tc))
  | _ :: _ =>
      match generate_security_cases l_templates (sw_security data) with
      | Raise e => Raise e
      | Ok sc =>
          Ok (generate_code_from_template l_templates py (fst tc) (Some sc)
                (sw_host data) (snd tc))
      end
  end.
Proof.
  unfold generate_locustfile. cbn zeta.
  destruct (gen_cases (sw_paths data) s) as [tc s1].
  destruct (sw_security data) as [|sec rest]; [reflexivity|].
  destruct (generate_security_cases l_templates (sec :: rest)); reflexivity.
Qed.

Lemma generate_code_from_template_vars (tc : string) (sc : option string) (host : string)
    (s s' : state) :
  vars_without_values s = vars_without_values s' ->
  generate_code_from_template l_templates py tc sc host s =
  generate_code_from_template l_templates py tc sc host s'.
Proof. unfold generate_code_from_template. now intros ->. Qed.

Lemma failed_operation_same_file (ps1 ps2 : dict (dict method_data)) (path method : string)
    (ms1 ms2 : dict method_data) (md : method_data) (e : value_error)
    (security : dict security_config) (host : string) (s : state) :
  generate_params strict_level (get_params md) = Raise e ->
  fst (gen_file (mk_swagger (ps1 ++ (path, ms1 ++ (method, md) :: ms2) :: ps2) security host) s) =
  fst (gen_file (mk_swagger (ps1 ++ (path, ms1 ++ ms2) :: ps2) security host) s).
Proof.
  intros H. rewrite !generate_locustfile_result. cbn [sw_paths sw_security sw_host].
  destruct (failed_operation_skipped ps1 ps2 path method ms1 ms2 md e s H) as (Hf & Hv & _).
  cbn zeta. rewrite Hf.
  destruct security as [|sec rest].
  - f_equal. now apply generate_code_from_template_vars.
  - destruct (generate_security_cases l_templates (sec :: rest)); [|reflexivity].
    f_equal. now apply generate_code_from_template_vars.
Qed.

End SkippedOperation.

(** * Properties of the strictness policy and the extractor *)

Lemma get_target_buckets_of (lvl : nat) (t : target) (params : dict param_config) :
  get_target t (buckets_of lvl params) = bucket_of lvl t params.
Proof. destruct t; reflexivity. Qed.

Lemma in_bucket_side (lvl : nat) (t : target) (params : dict param_config)
    (is_req : bool) (cfg : param_config) :
  In cfg (bucket_side is_req (bucket_of lvl t params)) <->
  In cfg (map snd params) /\ located_at t cfg = true /\ is_required cfg = is_req /\
  included lvl cfg = true.
Proof.
  unfold bucket_side, bucket_of. destruct is_req; cbn [required not_required];
    rewrite filter_In, !andb_true_iff, ?negb_true_iff; tauto.
Qed.

Lemma find_rejected_none (lvl : nat) (params : dict param_config) :
  Forall (fun item => rejected lvl (snd item) = false) params ->
  find (fun item => rejected lvl (snd item)) params = None.
Proof.
  induction 1 as [|item params Hi _ IH]; [reflexivity|].
  cbn [find]. now rewrite Hi.
Qed.

Lemma find_rejected_some (lvl : nat) (params : dict param_config) (item : string * param_config) :
  In item params -> rejected lvl (snd item) = true ->
  exists item', find (fun item => rejected lvl (snd item)) params = Some item'.
Proof.
  intros Hin Hrej.
  destruct (find (fun item => rejected lvl (snd item)) params) as [item'|] eqn:E.
  - now exists item'.
  - apply (find_none _ _ E) in Hin. congruence.
Qed.

(** Extraction raises exactly when some parameter is rejected, and then
    with the error of the first one. *)
Lemma extract_params_raise (lvl : nat) (params : dict param_config) (item : string * param_config) :
  In item params -> rejected lvl (snd item) = true ->
  exists param cfg,
    In (param, cfg) params /\ rejected lvl cfg = true /\
    _extract_params lvl params = Raise (rejection param cfg).
Proof.
  intros Hin Hrej. destruct (find_rejected_some lvl params item Hin Hrej) as [[param cfg] E].
  exists param, cfg. apply find_some in E as E'. destruct E' as [Hin' Hrej'].
  repeat split; auto. rewrite extract_params_spec. unfold extract_spec. now rewrite E.
Qed.

Lemma generate_params_raise (lvl : nat) (params : dict param_config) (e : value_error) :
  _extract_params lvl params = Raise e -> generate_params lvl params = Raise e.
Proof. unfold generate_params. now intros ->. Qed.

(** C7, amended: at strict level 1 the level rule raises on no parameter,
    and on a specification whose locations are all valid extraction
    succeeds and puts a declared parameter in the bucket of its location
    and requiredness if and only if it has a truthy default (a default
    other than [None], [False], 0 and the empty string) or is required;
    an optional parameter without such a default is in no bucket. *)
Theorem strict_level_1_inclusion (params : dict param_config) :
  Forall (fun item => valid_location (snd item) = true) params ->
  (forall e param cfg t, select_target (p_in cfg) = Some t ->
     extract_step 1 e (param, cfg) =
     Ok (if has_default cfg || is_required cfg
         then target_append t (is_required cfg) cfg e else e))
  /\ exists ex,
       _extract_params 1 params = Ok ex /\
       (forall t cfg,
          In cfg (map snd params) -> located_at t cfg = true ->
          (In cfg (bucket_side (is_required cfg) (get_target t ex)) <->
           has_default cfg = true \/ is_required cfg = true)) /\
       (forall t cfg,
          has_default cfg = false -> is_required cfg = false ->
          ~ In cfg (required (get_target t ex) ++ not_required (get_target t ex))).
Proof.
  intros Hvalid. split.
  - intros e param cfg t Ht. unfold extract_step, has_default, is_required.
    rewrite Ht. cbn [Nat.eqb andb].
    destruct (truthy (p_default cfg)), (truthy (p_required cfg)); reflexivity.
  - exists (buckets_of 1 params). split.
    + rewrite extract_params_spec. unfold extract_spec.
      rewrite find_rejected_none; [reflexivity|].
      eapply Forall_impl; [|exact Hvalid]. intros item Hv. unfold rejected.
      now rewrite Hv.
    + split.
      * intros t cfg Hin Hloc. rewrite get_target_buckets_of, in_bucket_side.
        cbn [included]. rewrite orb_true_iff. tauto.
      * intros t cfg Hd Hr Hin. rewrite get_target_buckets_of in Hin.
        apply in_app_or in Hin.
        assert (Hside : forall b, In cfg (bucket_side b (bucket_of 1 t params)) -> False).
        { intros b Hb. apply in_bucket_side in Hb as (_ & _ & _ & Hinc).
          cbn [included] in Hinc. rewrite Hd, Hr in Hinc. discriminate. }
        destruct Hin as [Hin|Hin]; [apply (Hside true)|apply (Hside false)]; exact Hin.
Qed.

Lemma strict_level_1_inclusion_witness :
  exists ex,
    _extract_params 1 sample_params = Ok ex /\
    (forall t cfg,
       In cfg (map snd sample_params) -> located_at t cfg = true ->
       (In cfg (bucket_side (is_required cfg) (get_target t ex)) <->
        has_default cfg = true \/ is_required cfg = true)) /\
    (forall t cfg,
       has_default cfg = false -> is_required cfg = false ->
       ~ In cfg (required (get_target t ex) ++ not_required (get_target t ex))).
Proof.
  apply (strict_level_1_inclusion sample_params).
  repeat constructor.
Defined.

(** At strict level 1 an optional parameter that declares the default 0
    is left out of its bucket: a declared default that is falsy does not
    count as a default. *)
Lemma falsy_default_excluded_at_level_1 :
  p_default sample_page = VInt 0
  /\ is_required sample_page = false
  /\ _extract_params 1 [("page", sample_page)] = Ok empty_extracted
  /\ ~ (exists ex,
          _extract_params 1 [("page", sample_page)] = Ok ex /\
          In sample_page (not_required (query_params ex))).
Proof.
  split; [reflexivity|]. split; [reflexivity|]. split; [reflexivity|].
  intros (ex & Hex & Hin). cbv in Hex. injection Hex as <-. exact Hin.
Qed.

Example extract_level_1_sample :
  _extract_params 1 sample_params =
  Ok (mk_extracted (mk_bucket [sample_pet] []) (mk_bucket [sample_id] [sample_limit])
        empty_bucket empty_bucket).
Proof. reflexivity. Qed.

Section ExtractionErrors.

Variable l_templates : templates.
Variable py : builtins.

Local Abbreviation gen_cases := (generate_test_cases l_templates py).
Local Abbreviation gen_file := (generate_locustfile l_templates py).

(** C1: at strict level 2 a successful extraction holds only parameters
    with a default.  When the parameters of an operation have valid
    locations and one of them is required and has no default, the level
    rule raises the missing-default error on it, extraction of the
    operation raises that error (for the first parameter without
    default), the error is logged as a warning, and the run produces the
    test functions, placeholder table and file it produces without the
    operation. *)
Theorem strict_level_2_missing_default
    (ps1 ps2 : dict (dict method_data)) (path method : string)
    (ms1 ms2 : dict method_data) (md : method_data)
    (param : string) (cfg : param_config)
    (security : dict security_config) (host : string) (s : state) :
  Forall (fun item => valid_location (snd item) = true) (get_params md) ->
  In (param, cfg) (get_params md) ->
  is_required cfg = true ->
  has_default cfg = false ->
  let paths := ps1 ++ (path, ms1 ++ (method, md) :: ms2) :: ps2 in
  let others := ps1 ++ (path, ms1 ++ ms2) :: ps2 in
  (forall params ex t c,
     _extract_params 2 params = Ok ex ->
     In c (required (get_target t ex) ++ not_required (get_target t ex)) ->
     has_default c = true)
  /\ (forall e, extract_step 2 e (param, cfg) = Raise (NoDefaultValue (p_in cfg) param))
  /\ (exists param' cfg',
        In (param', cfg') (get_params md) /\ has_default cfg' = false /\
        generate_params 2 (get_params md) = Raise (NoDefaultValue (p_in cfg') param') /\
        exists w1 w2,
          warnings (snd (gen_cases 2 paths s)) = w1 ++ NoDefaultValue (p_in cfg') param' :: w2 /\
          warnings (snd (gen_cases 2 others s)) = w1 ++ w2)
  /\ fst (gen_cases 2 paths s) = fst (gen_cases 2 others s)
  /\ vars_without_values (snd (gen_cases 2 paths s)) =
     vars_without_values (snd (gen_cases 2 others s))
  /\ fst (gen_file 2 (mk_swagger paths security host) s) =
     fst (gen_file 2 (mk_swagger others security host) s).
Proof.
  intros Hvalid Hin Hreq Hdef paths others.
  assert (Hrej : rejected 2 cfg = true).
  { unfold rejected. rewrite Hdef. cbn. apply orb_true_r. }
  destruct (extract_params_raise 2 (get_params md) (param, cfg) Hin Hrej)
    as (param' & cfg' & Hin' & Hrej' & Hraise).
  assert (Hv' : valid_location cfg' = true).
  { rewrite Forall_forall in Hvalid. exact (Hvalid _ Hin'). }
  assert (Hd' : has_default cfg' = false).
  { unfold rejected in Hrej'. rewrite Hv' in Hrej'. cbn in Hrej'.
    now apply negb_true_iff in Hrej'. }
  assert (Herr : rejection param' cfg' = NoDefaultValue (p_in cfg') param').
  { unfold rejection. now rewrite Hv'. }
  rewrite Herr in Hraise. apply generate_params_raise in Hraise.
  destruct (failed_operation_skipped l_templates py 2 ps1 ps2 path method ms1 ms2 md _ s Hraise)
    as (Hf & Hvars & w1 & w2 & Hw & Hw').
  split; [|split; [|split; [|split; [|split]]]].
  - intros params ex t c Hex Hc. rewrite extract_params_spec in Hex. unfold extract_spec in Hex.
    destruct (find _ params) as [[p q]|]; [discriminate|]. injection Hex as <-.
    rewrite get_target_buckets_of in Hc. apply in_app_or in Hc.
    assert (Hside : forall b, In c (bucket_side b (bucket_of 2 t params)) ->
                              has_default c = true).
    { intros b Hb. now apply in_bucket_side in Hb as (_ & _ & _ & Hinc). }
    destruct Hc as [Hc|Hc]; [apply (Hside true)|apply (Hside false)]; exact Hc.
  - intros e. rewrite extract_step_rejects by exact Hrej. unfold rejection.
    rewrite Forall_forall in Hvalid. specialize (Hvalid _ Hin). cbn [snd] in Hvalid.
    now rewrite Hvalid.
  - exists param', cfg'. repeat split; auto. exists w1, w2. now split.
  - exact Hf.
  - exact Hvars.
  - exact (failed_operation_same_file l_templates py 2 ps1 ps2 path method ms1 ms2 md _
             security host s Hraise).
Qed.

End ExtractionErrors.

Lemma strict_level_2_missing_default_witness :
  fst (generate_locustfile sample_templates sample_builtins 2
         (mk_swagger (sample_paths_with "post" sample_post) [] "localhost") init_state) =
  fst (generate_locustfile sample_templates sample_builtins 2
         (mk_swagger sample_paths_without [] "localhost") init_state).
Proof.
  refine (proj2 (proj2 (proj2 (proj2 (proj2
    (strict_level_2_missing_default sample_templates sample_builtins
       sample_paths_before sample_paths_after "/owners" "post"
       [("get", sample_get)] [("delete", sample_delete)] sample_post
       "id" sample_id [] "localhost" init_state _ _ _ _)))))).
  - repeat constructor.
  - simpl. right. left. reflexivity.
  - reflexivity.
  - reflexivity.
Defined.

Example extract_level_2_sample_post :
  _extract_params 2 (get_params sample_post) = Raise (NoDefaultValue (Some "query") "id").
Proof. reflexivity. Qed.

Section InvalidLocation.

Variable l_templates : templates.
Variable py : builtins.

Local Abbreviation gen_cases := (generate_test_cases l_templates py).
Local Abbreviation gen_file := (generate_locustfile l_templates py).

(** C6, amended: on a parameter whose location is none of path, query,
    header, cookie the location check raises the invalid-location error,
    at every strict level, and extraction of the owning operation raises.
    The error is that of the first rejected parameter in declaration
    order: either the invalid-location error of a badly located
    parameter, or, at strict level 2 only, the missing-default error of
    a validly located parameter without default that is declared before
    the badly located one.  The error is logged as a warning and the run
    produces the test functions, placeholder table and file it produces
    without the operation. *)
Theorem invalid_location_operation_skipped (strict_level : nat)
    (ps1 ps2 : dict (dict method_data)) (path method : string)
    (ms1 ms2 : dict method_data) (md : method_data)
    (param : string) (cfg : param_config)
    (security : dict security_config) (host : string) (s : state) :
  In (param, cfg) (get_params md) ->
  valid_location cfg = false ->
  let paths := ps1 ++ (path, ms1 ++ (method, md) :: ms2) :: ps2 in
  let others := ps1 ++ (path, ms1 ++ ms2) :: ps2 in
  (forall e, extract_step strict_level e (param, cfg) = Raise (NotValidIn param (p_in cfg) cfg))
  /\ (exists err before p c after,
        generate_params strict_level (get_params md) = Raise err /\
        get_params md = before ++ (p, c) :: after /\
        Forall (fun item => valid_location (snd item) = true /\
                            (strict_level = 2 -> has_default (snd item) = true)) before /\
        ((valid_location c = false /\ err = NotValidIn p (p_in c) c)
         \/ (strict_level = 2 /\ valid_location c = true /\ has_default c = false /\
             err = NoDefaultValue (p_in c) p /\ In (param, cfg) after)) /\
        exists w1 w2,
          warnings (snd (gen_cases strict_level paths s)) = w1 ++ err :: w2 /\
          warnings (snd (gen_cases strict_level others s)) = w1 ++ w2)
  /\ fst (gen_cases strict_level paths s) = fst (gen_cases strict_level others s)
  /\ vars_without_values (snd (gen_cases strict_level paths s)) =
     vars_without_values (snd (gen_cases strict_level others s))
  /\ fst (gen_file strict_level (mk_swagger paths security host) s) =
     fst (gen_file strict_level (mk_swagger others security host) s).
Proof.
  intros Hin Hinv paths others.
  assert (Hrej : rejected strict_level cfg = true).
  { unfold rejected. now rewrite Hinv. }
  destruct (find_rejected_some strict_level (get_params md) (param, cfg) Hin Hrej)
    as [[p c] Efind].
  assert (Hraise : generate_params strict_level (get_params md) = Raise (rejection p c)).
  { apply generate_params_raise. rewrite extract_params_spec. unfold extract_spec.
    now rewrite Efind. }
  destruct (find_first _ _ _ Efind) as (before & after & Hsplit & Hbefore & Hrej').
  cbn [snd] in Hrej'.
  destruct (failed_operation_skipped l_templates py strict_level
              ps1 ps2 path method ms1 ms2 md _ s Hraise)
    as (Hf & Hvars & w1 & w2 & Hw & Hw').
  split; [|split; [|split; [|split]]].
  - intros e. rewrite extract_step_rejects by exact Hrej. unfold rejection. now rewrite Hinv.
  - exists (rejection p c), before, p, c, after.
    split; [exact Hraise|]. split; [exact Hsplit|]. split; [|split].
    + eapply Forall_impl; [|exact Hbefore]. intros [p0 c0] Hc0. cbn [snd] in *.
      unfold rejected in Hc0. apply orb_false_iff in Hc0 as [Hv Hd].
      apply negb_false_iff in Hv. split; [exact Hv|]. intros ->.
      cbn [Nat.eqb andb] in Hd. now apply negb_false_iff in Hd.
    + unfold rejection. destruct (valid_location c) eqn:Hv; [right|left; now split].
      unfold rejected in Hrej'. rewrite Hv in Hrej'. cbn [negb orb] in Hrej'.
      apply andb_true_iff in Hrej' as [Hl Hd]. apply Nat.eqb_eq in Hl.
      apply negb_true_iff in Hd. repeat split; auto.
      rewrite Hsplit in Hin. apply in_app_or in Hin as [Hin|[Hin|Hin]].
      * rewrite Forall_forall in Hbefore. specialize (Hbefore _ Hin). cbn [snd] in Hbefore.
        congruence.
      * injection Hin as -> ->. congruence.
      * exact Hin.
    + exists w1, w2. now split.
  - exact Hf.
  - exact Hvars.
  - exact (failed_operation_same_file l_templates py strict_level
             ps1 ps2 path method ms1 ms2 md _ security host s Hraise).
Qed.

End InvalidLocation.

Lemma invalid_location_operation_skipped_witness :
  fst (generate_locustfile sample_templates sample_builtins 0
         (mk_swagger (sample_paths_with "put" sample_put) [] "localhost") init_state) =
  fst (generate_locustfile sample_templates sample_builtins 0
         (mk_swagger sample_paths_without [] "localhost") init_state).
Proof.
  refine (proj2 (proj2 (proj2 (proj2
    (invalid_location_operation_skipped sample_templates sample_builtins 0
       sample_paths_before sample_paths_after "/owners" "put"
       [("get", sample_get)] [("delete", sample_delete)] sample_put
       "payload" sample_body [] "localhost" init_state _ _))))).
  - simpl. right. left. reflexivity.
  - reflexivity.
Defined.

(** At strict level 2 an operation can hold a parameter with an invalid
    location and yet fail with the missing-default error of a parameter
    declared before it. *)
Lemma invalid_location_not_reported :
  In ("payload", sample_body) (get_params sample_patch)
  /\ valid_location sample_body = false
  /\ _extract_params 2 (get_params sample_patch) = Raise (NoDefaultValue (Some "query") "id")
  /\ ~ (exists p l c, _extract_params 2 (get_params sample_patch) = Raise (NotValidIn p l c)).
Proof.
  split; [simpl; right; left; reflexivity|].
  split; [reflexivity|]. split; [reflexivity|].
  intros (p & l & c & H). discriminate H.
Qed.

(** * Falsy defaults *)

Lemma erase_falsy_has_default (cfg : param_config) :
  has_default (erase_falsy cfg) = has_default cfg.
Proof.
  unfold erase_falsy. destruct (has_default cfg) eqn:E; [exact E|reflexivity].
Qed.

Lemma erase_falsy_name (cfg : param_config) : p_name (erase_falsy cfg) = p_name cfg.
Proof. unfold erase_falsy. destruct (has_default cfg); reflexivity. Qed.

Section FalsyDefault.

Variable l_templates : templates.
Variable py : builtins.

Lemma render_pair_erase (param_type : string) (test_count : nat) (cfg : param_config) :
  render_pair l_templates py param_type test_count (erase_falsy cfg) =
  render_pair l_templates py param_type test_count cfg.
Proof.
  unfold render_pair, resolve. rewrite erase_falsy_has_default, erase_falsy_name.
  unfold erase_falsy. destruct (has_default cfg); reflexivity.
Qed.

Lemma formatted_erase (raw : list param_config) (test_count : nat) (param_type : string) :
  formatted l_templates py (map erase_falsy raw) test_count param_type =
  formatted l_templates py raw test_count param_type.
Proof.
  unfold formatted. rewrite map_map.
  rewrite (map_ext _ _ (render_pair_erase param_type test_count)). reflexivity.
Qed.

Lemma keys_dict_set {V : Type} (k : string) (v w : V) (d d' : dict V) :
  keys d = keys d' -> keys (dict_set k v d) = keys (dict_set k w d').
Proof.
  revert d'. induction d as [|[k1 v1] d IH]; intros [|[k2 v2] d'] H; try discriminate.
  - reflexivity.
  - injection H as -> H. cbn [dict_set]. destruct (String.eqb k2 k); cbn [keys map fst].
    + f_equal. exact H.
    + f_equal. apply IH. exact H.
Qed.

Lemma keys_register_erase (raw : list param_config) (test_count : nat) :
  forall d d', keys d = keys d' ->
    keys (register (block_registrations (map erase_falsy raw) test_count) d) =
    keys (register (block_registrations raw test_count) d').
Proof.
  induction raw as [|cfg raw IH]; intros d d' H; [exact H|].
  cbn [map]. rewrite !block_registrations_cons, erase_falsy_has_default, erase_falsy_name.
  destruct (has_default cfg); [now apply IH|].
  cbn [register fold_left fst snd]. apply IH. now apply keys_dict_set.
Qed.

(** C9: a parameter whose default is falsy (0, False, the empty string,
    or none at all) is handled as one without default.  Strict level 1
    includes it only if it is required, strict level 2 raises the
    missing-default error on it, and both levels decide as they do once
    the default is removed; value resolution does not call [repr] but
    renders the placeholder token and registers it for the parameter;
    and removing the falsy defaults of a parameter list changes neither
    the formatted block nor the registered placeholder names. *)
Theorem falsy_default_is_no_default (cfg : param_config) (param : string) (t : target)
    (e : extracted) (test_count : nat) (param_type : string) (vars : dict param_config) :
  has_default cfg = false ->
  select_target (p_in cfg) = Some t ->
  (truthy (VInt 0) = false /\ truthy (VBool false) = false /\ truthy (VStr "") = false
   /\ truthy VNone = false)
  /\ extract_step 1 e (param, cfg) =
     Ok (if is_required cfg then target_append t true cfg e else e)
  /\ extract_step 2 e (param, cfg) = Raise (NoDefaultValue (p_in cfg) param)
  /\ (forall lvl,
        included lvl cfg = included lvl (without_default cfg) /\
        rejected lvl cfg = rejected lvl (without_default cfg))
  /\ _format_params l_templates py [cfg] test_count param_type vars =
     ((if String.eqb param_type "path"
       then ", " +++ PATH_PARAM_PAIR_TEMPLATE l_templates (p_name cfg)
                       (placeholder (p_name cfg) test_count)
       else "{" +++ DICT_PARAM_PAIR_TEMPLATE l_templates (p_name cfg)
                      (placeholder (p_name cfg) test_count) +++ "}"),
      dict_set (placeholder (p_name cfg) test_count) cfg vars)
  /\ (forall raw,
        fst (_format_params l_templates py (map erase_falsy raw) test_count param_type vars) =
        fst (_format_params l_templates py raw test_count param_type vars) /\
        keys (snd (_format_params l_templates py (map erase_falsy raw) test_count
                     param_type vars)) =
        keys (snd (_format_params l_templates py raw test_count param_type vars))).
Proof.
  intros Hd Ht. unfold has_default in Hd.
  split; [repeat split|]. split; [|split; [|split; [|split]]].
  - unfold extract_step, is_required. rewrite Ht, Hd. cbn [Nat.eqb andb orb negb].
    destruct (truthy (p_required cfg)); reflexivity.
  - unfold extract_step. rewrite Ht, Hd. reflexivity.
  - intros lvl. unfold included, rejected, valid_location, has_default, is_required,
      without_default. cbn [p_in p_default p_required truthy]. rewrite Hd.
    split; reflexivity.
  - unfold _format_params. cbn [format_loop]. rewrite Hd. cbn [negb app].
    destruct (String.eqb param_type "path"); reflexivity.
  - intros raw. rewrite !format_params_spec. cbn [fst snd]. split.
    + apply formatted_erase.
    + now apply keys_register_erase.
Qed.

End FalsyDefault.

Lemma falsy_default_is_no_default_witness :
  extract_step 2 empty_extracted ("page", sample_page) =
    Raise (NoDefaultValue (Some "query") "page")
  /\ _format_params sample_templates sample_builtins [sample_page] 3 "query" [] =
     ("{'page': page_test_3}", [("page_test_3", sample_page)]).
Proof.
  pose proof (falsy_default_is_no_default sample_templates sample_builtins
                sample_page "page" TQuery empty_extracted 3 "query" []
                eq_refl eq_refl) as H.
  split.
  - exact (proj1 (proj2 (proj2 H))).
  - exact (proj1 (proj2 (proj2 (proj2 (proj2 H))))).
Defined.

(** * The order and the names of the test cases *)

Lemma nth_list_prod {X Y : Type} (l : list X) (l' : list Y) (d : X) (d' : Y) :
  forall i, i < List.length l * List.length l' ->
    nth i (list_prod l l') (d, d') =
    (nth (i / List.length l') l d, nth (i mod List.length l') l' d').
Proof.
  induction l as [|x l IH]; intros i Hi; [simpl in Hi; lia|].
  cbn [list_prod]. set (n := List.length l') in *.
  assert (Hn : n <> 0) by (intros E; rewrite E in Hi; lia).
  destruct (Nat.lt_ge_cases i n) as [Hlt|Hge].
  - rewrite app_nth1 by (now rewrite length_map).
    rewrite (nth_indep _ _ (x, d')) by (now rewrite length_map).
    rewrite (map_nth (pair x)), Nat.div_small, Nat.mod_small by exact Hlt. reflexivity.
  - rewrite app_nth2 by (rewrite length_map; exact Hge). rewrite length_map. fold n.
    cbn [List.length] in Hi.
    rewrite IH by lia.
    replace i with ((i - n) + 1 * n) at 3 4 by lia.
    rewrite Nat.div_add, Nat.Div0.mod_add by exact Hn.
    rewrite Nat.add_1_r. reflexivity.
Qed.

(** Reading off one digit of a mixed-radix number. *)
Lemma mod_mul_digits (a b c : nat) :
  b <> 0 -> (a mod (b * c)) / b = (a / b) mod c /\ (a mod (b * c)) mod b = a mod b.
Proof.
  intros Hb. rewrite Nat.Div0.mod_mul_r. split.
  - rewrite (Nat.mul_comm b), Nat.div_add by exact Hb.
    rewrite Nat.div_small; [reflexivity|]. now apply Nat.mod_upper_bound.
  - rewrite (Nat.mul_comm b), Nat.Div0.mod_add. apply Nat.Div0.mod_mod.
Qed.

Lemma length_cross (pc : params_combinations) : List.length (cross pc) = case_count pc.
Proof.
  unfold cross, case_count, case_params. repeat rewrite length_prod.
  now rewrite !Nat.mul_assoc.
Qed.

Lemma nth_cross (pc : params_combinations) (i : nat) :
  i < case_count pc -> nth i (cross pc) ([], ([], ([], []))) = case_at pc i.
Proof.
  unfold case_count, cross, case_at, case_params. intros Hi.
  set (p := List.length (c_path_params pc)) in *.
  set (q := List.length (c_query_params pc)) in *.
  set (h := List.length (c_header_params pc)) in *.
  set (c := List.length (c_cookie_params pc)) in *.
  assert (Hc : c <> 0) by (intros E; rewrite E in Hi; lia).
  assert (Hh : h <> 0) by (intros E; rewrite E in Hi; lia).
  assert (Hq : q <> 0) by (intros E; rewrite E in Hi; lia).
  assert (Hhc : h * c <> 0) by lia.
  assert (Hqhc : q * (h * c) <> 0) by lia.
  rewrite nth_list_prod by (repeat rewrite length_prod; fold p q h c; lia).
  repeat rewrite length_prod. fold q h c. f_equal.
  rewrite nth_list_prod
    by (repeat rewrite length_prod; fold q h c; now apply Nat.mod_upper_bound).
  repeat rewrite length_prod. fold h c.
  rewrite (Nat.mul_comm q (h * c)).
  destruct (mod_mul_digits i (h * c) q Hhc) as [-> ->]. f_equal.
  rewrite nth_list_prod by (fold h c; now apply Nat.mod_upper_bound).
  fold c. rewrite (Nat.mul_comm h c).
  destruct (mod_mul_digits i c h Hc) as [-> ->]. reflexivity.
Qed.

Section CaseOrder.

Variable l_templates : templates.
Variable py : builtins.

Lemma length_case_funcs (method path : string) (tc : nat) (cs : list case_params) :
  forall c, List.length (case_funcs l_templates py method path tc c cs) = List.length cs.
Proof.
  induction cs as [|x cs IH]; intros c; simpl; [reflexivity|]. now rewrite IH.
Qed.

Lemma nth_case_funcs (method path : string) (tc : nat) (cs : list case_params)
    (d : case_params) :
  forall c i, i < List.length cs ->
    nth i (case_funcs l_templates py method path tc c cs) "" =
    case_func l_templates py method path tc (c + i) (nth i cs d).
Proof.
  induction cs as [|x cs IH]; intros c i Hi; [simpl in Hi; lia|].
  destruct i as [|i]; cbn [case_funcs nth].
  - now rewrite Nat.add_0_r.
  - cbn [List.length] in Hi. rewrite IH by lia. f_equal. lia.
Qed.

(** C4: an operation whose extraction succeeds adds one test function per
    element of the cross product of its four combination lists: their
    number is the product of the four lengths, the [i]-th of them is
    named [test_<seq>_case_<i>] (the case counter starts at 0 and grows
    by one per function) and is rendered from the combinations at the
    digits of [i], the path digit most significant and the cookie digit
    least (the formatted blocks are the same from every placeholder
    table); the sequence number grows by one. *)
Theorem case_assembler_cross_product (strict_level : nat) (path method : string)
    (md : method_data) (pc : params_combinations) (r : run) :
  generate_params strict_level (get_params md) = Ok pc ->
  exists emitted,
    r_funcs (method_step l_templates py strict_level path r (method, md)) =
      r_funcs r ++ emitted
    /\ List.length emitted =
       List.length (c_path_params pc) * List.length (c_query_params pc) *
       List.length (c_header_params pc) * List.length (c_cookie_params pc)
    /\ r_test_count (method_step l_templates py strict_level path r (method, md)) =
       r_test_count r + 1
    /\ forall i v1 v2 v3 v4, i < List.length emitted ->
         let q := List.length (c_query_params pc) in
         let h := List.length (c_header_params pc) in
         let c := List.length (c_cookie_params pc) in
         let seq := r_test_count r in
         nth i emitted "" =
         FUNC_TEMPLATE l_templates
           ("test_" +++ str_nat seq +++ "_case_" +++ str_nat i) method path
           (fst (_format_params l_templates py
                   (nth (i / (q * (h * c))) (c_path_params pc) []) seq "path" v1))
           (fst (_format_params l_templates py
                   (nth ((i / (h * c)) mod q) (c_query_params pc) []) seq "query" v2))
           (fst (_format_params l_templates py
                   (nth ((i / c) mod h) (c_header_params pc) []) seq "header" v3))
           (fst (_format_params l_templates py
                   (nth (i mod c) (c_cookie_params pc) []) seq "cookie" v4)).
Proof.
  intros Hpc.
  exists (case_funcs l_templates py method path (r_test_count r) 0 (cross pc)).
  rewrite method_step_spec. unfold op_outcome. rewrite Hpc.
  unfold apply_outcome. cbn [r_funcs r_test_count o_funcs o_next].
  split; [reflexivity|]. rewrite length_case_funcs, length_cross.
  split; [reflexivity|]. split; [reflexivity|].
  intros i v1 v2 v3 v4 Hi. cbn zeta. rewrite !format_params_spec. cbn [fst].
  rewrite (nth_case_funcs method path (r_test_count r) (cross pc) ([], ([], ([], []))))
    by (now rewrite length_cross).
  rewrite nth_cross by exact Hi. reflexivity.
Qed.

End CaseOrder.

Lemma case_assembler_cross_product_witness :
  exists emitted,
    r_funcs (method_step sample_templates sample_builtins 0 "/pets" (mk_run [] 0 init_state)
               ("get", mk_method (Some sample_params))) = emitted
    /\ List.length emitted = 8.
Proof.
  destruct (case_assembler_cross_product sample_templates sample_builtins 0 "/pets" "get"
              (mk_method (Some sample_params)) sample_combinations
              (mk_run [] 0 init_state) eq_refl) as (emitted & Hf & Hl & _).
  exists emitted. split; [exact Hf|exact Hl].
Defined.

(** * Sequence numbers and names *)

Lemma append_inj_l (p s s' : string) : p +++ s = p +++ s' -> s = s'.
Proof.
  induction p as [|a p IH]; simpl; intros H; [exact H|].
  injection H as H. now apply IH.
Qed.

Lemma append_split_at (c : ascii) (s s' t t' : string) :
  free_of c s -> free_of c s' ->
  s +++ String c t = s' +++ String c t' -> s = s' /\ t = t'.
Proof.
  revert s'. induction s as [|a s IH]; intros [|a' s'] Hs Hs' H; simpl in *.
  - injection H as H. now split.
  - injection H as H _. destruct Hs' as [Hne _]. now symmetry in H.
  - injection H as H _. destruct Hs as [Hne _]. contradiction.
  - injection H as Ha H. destruct Hs as [_ Hs]. destruct Hs' as [_ Hs'].
    destruct (IH s' Hs Hs' H) as [-> ->]. subst. now split.
Qed.

Lemma string_of_uint_free (d : Decimal.uint) : free_of "_" (NilEmpty.string_of_uint d).
Proof.
  induction d; simpl; (exact I || (split; [discriminate|assumption])).
Qed.

Lemma string_of_uint_inj (d d' : Decimal.uint) :
  NilEmpty.string_of_uint d = NilEmpty.string_of_uint d' -> d = d'.
Proof.
  intros H. apply (f_equal NilEmpty.uint_of_string) in H.
  rewrite !NilEmpty.usu in H. now injection H.
Qed.

Lemma str_nat_inj (n m : nat) : str_nat n = str_nat m -> n = m.
Proof.
  unfold str_nat. intros H. now apply Unsigned.to_uint_inj, string_of_uint_inj.
Qed.

(** Distinct (sequence number, case index) pairs give distinct names. *)
Lemma func_name_inj (tc c tc' c' : nat) :
  func_name tc c = func_name tc' c' -> tc = tc' /\ c = c'.
Proof.
  unfold func_name. intros H. apply append_inj_l in H.
  change ("_case_" +++ str_nat c) with (String "_" ("case_" +++ str_nat c)) in H.
  change ("_case_" +++ str_nat c') with (String "_" ("case_" +++ str_nat c')) in H.
  apply append_split_at in H as [H1 H2]; try apply string_of_uint_free.
  apply append_inj_l in H2. split; now apply str_nat_inj.
Qed.

Lemma placeholder_inj (name : option string) (tc tc' : nat) :
  placeholder name tc = placeholder name tc' -> tc = tc'.
Proof.
  unfold placeholder. intros H. do 2 apply append_inj_l in H. now apply str_nat_inj.
Qed.

Section SequenceNumbers.

Variable l_templates : templates.
Variable py : builtins.
Variable strict_level : nat.

Local Abbreviation run_out := (run_outcome l_templates py strict_level).
Local Abbreviation p_loop := (paths_loop l_templates py strict_level).

(** The sequence number after a list of operations: one more for each
    operation whose extraction succeeds. *)
Lemma run_outcome_next (ops : list operation) :
  forall tc, o_next (run_out ops tc) = tc + List.length (filter (extracts strict_level) ops).
Proof.
  induction ops as [|[path [method md]] ops IH]; intros tc; cbn [run_outcome o_next filter].
  - cbn. lia.
  - rewrite IH. unfold op_outcome, extracts. cbn [snd].
    destruct (generate_params strict_level (get_params md)); cbn [o_next List.length]; lia.
Qed.

Lemma filter_complement_length {X : Type} (f : X -> bool) (l : list X) :
  List.length (filter f l) + List.length (filter (fun x => negb (f x)) l) = List.length l.
Proof.
  induction l as [|x l IH]; [reflexivity|]. cbn [filter].
  destruct (f x); cbn [negb List.length]; lia.
Qed.

(** C10: the sequence number an operation is given is the number of
    operations before it whose extraction succeeded, that is its position
    minus the number of earlier failures.  An operation whose extraction
    raises only adds a warning: counter, test functions and placeholder
    table stay as they were, so no number is consumed; one whose
    extraction succeeds has its cases assembled under that number and
    increments it.  The names determine the number: different numbers
    give different function names and placeholder tokens. *)
Theorem sequence_counter_skips_failures
    (ps1 ps2 : dict (dict method_data)) (path method : string)
    (ms1 ms2 : dict method_data) (md : method_data) (r : run) :
  let before := ps1 ++ [(path, ms1)] in
  let through := ps1 ++ [(path, ms1 ++ [(method, md)])] in
  let paths := ps1 ++ (path, ms1 ++ (method, md) :: ms2) :: ps2 in
  let failed := List.length (filter (fun op => negb (extracts strict_level op))
                               (operations before)) in
  let seq := r_test_count r + (List.length (operations before) - failed) in
  let rb := p_loop before r in
  r_test_count rb = seq
  /\ failed <= List.length (operations before)
  /\ p_loop through r = method_step l_templates py strict_level path rb (method, md)
  /\ match generate_params strict_level (get_params md) with
     | Raise e =>
         p_loop through r =
         mk_run (r_funcs rb) seq
           (mk_state (vars_without_values (r_state rb)) (warnings (r_state rb) ++ [e]))
     | Ok pc =>
         let a := cases_loop l_templates py method path seq pc
                    (mk_acc (r_funcs rb) 0 (vars_without_values (r_state rb))) in
         p_loop through r =
         mk_run (funcs a) (seq + 1) (mk_state (vars a) (warnings (r_state rb)))
     end
  /\ (exists later, r_funcs (p_loop paths r) = r_funcs (p_loop through r) ++ later)
  /\ (forall tc c tc' c', func_name tc c = func_name tc' c' -> tc = tc' /\ c = c')
  /\ (forall name tc tc', placeholder name tc = placeholder name tc' -> tc = tc').
Proof.
  intros before through paths failed seq rb.
  assert (Hops_before : operations before = operations ps1 ++ map (pair path) ms1).
  { unfold before. rewrite operations_app, operations_cons. cbn. now rewrite app_nil_r. }
  assert (Hops_through : operations through = operations before ++ [(path, (method, md))]).
  { unfold through. rewrite Hops_before, operations_app, operations_cons, map_app.
    cbn. now rewrite app_nil_r, app_assoc. }
  assert (Hops_paths : operations paths =
            operations through ++ (map (pair path) ms2 ++ operations ps2)).
  { unfold paths. rewrite Hops_through, Hops_before.
    destruct (operations_split ps1 ps2 path ms1 ms2 (method, md)) as [-> _].
    now rewrite <- !app_assoc. }
  assert (Hseq : r_test_count rb = seq).
  { unfold rb. rewrite paths_loop_spec. cbn [apply_outcome r_test_count].
    rewrite run_outcome_next. unfold seq, failed.
    pose proof (filter_complement_length (extracts strict_level) (operations before)). lia. }
  assert (Hstep : p_loop through r =
            method_step l_templates py strict_level path rb (method, md)).
  { unfold rb. rewrite !paths_loop_flat, Hops_through, fold_left_app. reflexivity. }
  split; [exact Hseq|]. split; [|split; [exact Hstep|split; [|split; [|split]]]].
  - unfold failed.
    pose proof (filter_complement_length (extracts strict_level) (operations before)). lia.
  - rewrite Hstep. unfold method_step. rewrite Hseq.
    destruct (generate_params strict_level (get_params md)); reflexivity.
  - exists (o_funcs (run_outcome l_templates py strict_level
                       (map (pair path) ms2 ++ operations ps2)
                       (o_next (run_out (operations through) (r_test_count r))))).
    rewrite !paths_loop_spec, Hops_paths, run_outcome_app.
    unfold apply_outcome, outcome_app. cbn [r_funcs o_funcs].
    now rewrite app_assoc.
  - exact func_name_inj.
  - exact placeholder_inj.
Qed.

End SequenceNumbers.

Example sequence_after_failure :
  fst (generate_test_cases sample_templates sample_builtins 2
         [("/owners", [("post", sample_post); ("delete", sample_delete)])] init_state) =
  "def test_0_case_0(l): l.client.delete(/owners, params={}, headers={}, cookies={});".
Proof. reflexivity. Qed.

(** * Value resolution and the placeholder table *)

Lemma in_block_registrations (k : string) (p : param_config) (raw : list param_config)
    (tc : nat) :
  In (k, p) (block_registrations raw tc) <->
  In p raw /\ has_default p = false /\ k = placeholder (p_name p) tc.
Proof.
  unfold block_registrations. rewrite in_map_iff. split.
  - intros (q & E & Hq). injection E as <- <-. apply filter_In in Hq as [Hin Hd].
    apply negb_true_iff in Hd. auto.
  - intros (Hin & Hd & ->). exists p. split; [reflexivity|].
    apply filter_In. split; [exact Hin|]. now apply negb_true_iff.
Qed.

Lemma in_case_registrations (k : string) (p : param_config) (tc : nat) (c : case_params) :
  In (k, p) (case_registrations tc c) <->
  In p (fst c ++ fst (snd c) ++ fst (snd (snd c)) ++ snd (snd (snd c))) /\
  has_default p = false /\ k = placeholder (p_name p) tc.
Proof.
  destruct c as (pp & qp & hp & cp). unfold case_registrations. cbn [fst snd].
  rewrite !in_app_iff, !in_block_registrations. tauto.
Qed.

Example placeholder_table_sample :
  vars (cases_loop sample_templates sample_builtins "get" "/pets" 0 sample_combinations
          (mk_acc [] 0 [])) =
  [("id_test_0", sample_id); ("trace_test_0", sample_trace); ("page_test_0", sample_page)].
Proof. vm_compute. reflexivity. Qed.

(** * Repeated runs *)

Section Determinism.

Variable l_templates : templates.
Variable py : builtins.
Variable strict_level : nat.

Local Abbreviation gen_cases := (generate_test_cases l_templates py strict_level).
Local Abbreviation gen_file := (generate_locustfile l_templates py strict_level).

Lemma generate_locustfile_state (data : swagger_data) (s : state) :
  snd (gen_file data s) = snd (gen_cases (sw_paths data) s).
Proof.
  unfold generate_locustfile.
  destruct (gen_cases (sw_paths data) s) as [tc s1].
  destruct (sw_security data) as [|sec rest]; [reflexivity|].
  destruct (generate_security_cases l_templates (sec :: rest)); reflexivity.
Qed.

(** The result of a run is a function of the specification and of the
    placeholder table the generator starts with. *)
Lemma generate_locustfile_same_vars (data : swagger_data) (s s' : state) :
  vars_without_values (snd (gen_cases (sw_paths data) s)) =
  vars_without_values (snd (gen_cases (sw_paths data) s')) ->
  fst (gen_file data s) = fst (gen_file data s').
Proof.
  intros Hv. rewrite !generate_locustfile_result. cbn zeta.
  assert (Hf : fst (gen_cases (sw_paths data) s) = fst (gen_cases (sw_paths data) s'))
    by (now rewrite !generate_test_cases_spec).
  rewrite Hf.
  destruct (sw_security data) as [|sec rest].
  - f_equal. now apply generate_code_from_template_vars.
  - destruct (generate_security_cases l_templates (sec :: rest)); [|reflexivity].
    f_equal. now apply generate_code_from_template_vars.
Qed.

(** C8: a run on a new generator yields a result that depends on the
    specification and the strict level only (not on what was logged
    before), and a second run of the same generator object on the same
    specification, which starts from the placeholder table the first run
    left, yields the same result and leaves the same table. *)
Theorem generation_deterministic (data : swagger_data) (logged : list value_error) :
  let first := gen_file data init_state in
  let again := gen_file data (snd first) in
  fst (gen_file data (mk_state [] logged)) = fst first
  /\ fst again = fst first
  /\ vars_without_values (snd again) = vars_without_values (snd first).
Proof.
  cbn zeta.
  assert (Hagain : vars_without_values
             (snd (gen_cases (sw_paths data) (snd (gen_file data init_state)))) =
           vars_without_values (snd (gen_cases (sw_paths data) init_state))).
  { rewrite generate_locustfile_state, !generate_test_cases_spec.
    cbn [snd vars_without_values init_state].
    apply register_idempotent. constructor. }
  split; [|split].
  - apply generate_locustfile_same_vars. now rewrite !generate_test_cases_spec.
  - apply generate_locustfile_same_vars. exact Hagain.
  - rewrite (generate_locustfile_state data (snd (gen_file data init_state))).
    rewrite Hagain. now rewrite generate_locustfile_state.
Qed.

End Determinism.

Example generate_sample_file :
  fst (generate_locustfile sample_templates sample_builtins 1
         (mk_swagger [("/pets", [("get", mk_method (Some sample_params))])]
            [("BasicAuth", mk_security None None)] "localhost") init_state) =
  Ok ("id_test_0 = " +++ dquote +++ "#" +++ dquote +++ "  # {'name': id}|" +++
      "def test_0_case_0(l): l.client.get(/pets, pet='rex', params={'id': id_test_0}, " +++
      "headers={}, cookies={});" +++
      "def test_0_case_1(l): l.client.get(/pets, pet='rex', " +++
      "params={'id': id_test_0, 'limit': 10}, headers={}, cookies={});" +++
      "|auth=basic;|localhost").
Proof. vm_compute. reflexivity. Qed.

(** * The security-case builder *)

Section Security.

Variable l_templates : templates.
Variable py : builtins.

Local Abbreviation sec_loop := (security_loop l_templates).
Local Abbreviation sec_cases := (generate_security_cases l_templates).

(** Entries of other scheme types are passed over. *)
Lemma security_loop_known (security_data : dict security_config) :
  forall acc, sec_loop security_data acc = sec_loop (filter known_scheme security_data) acc.
Proof.
  induction security_data as [|[ty cfg] rest IH]; intros acc; [reflexivity|].
  cbn [filter]. unfold known_scheme at 1. cbn [fst].
  destruct (String.eqb ty "BasicAuth") eqn:Eb; cbn [orb].
  - cbn [security_loop]. rewrite Eb. apply IH.
  - destruct (String.eqb ty "apiKey") eqn:Ea.
    + cbn [security_loop]. rewrite Eb, Ea.
      destruct (sc_in cfg) as [loc|]; [|reflexivity].
      destruct (String.eqb (lower loc) "header" && name_given (sc_name cfg));
        [apply IH|reflexivity].
    + cbn [security_loop]. rewrite Eb, Ea. apply IH.
Qed.

(** Entries that are not [apiKey] never raise. *)
Lemma security_loop_before (pre rest : dict security_config) :
  ~ In "apiKey" (keys pre) ->
  forall acc, exists acc', sec_loop (pre ++ rest) acc = sec_loop rest acc'.
Proof.
  induction pre as [|[ty cfg] pre IH]; intros Hnot acc; [now exists acc|].
  cbn [keys map fst In] in Hnot. fold (keys pre) in Hnot.
  assert (Ea : String.eqb ty "apiKey" = false).
  { destruct (String.eqb ty "apiKey") eqn:E; [|reflexivity].
    apply String.eqb_eq in E. exfalso. apply Hnot. now left. }
  cbn [app security_loop]. rewrite Ea.
  destruct (String.eqb ty "BasicAuth"); apply IH; intros H; apply Hnot; now right.
Qed.

(** C2, amended: an [apiKey] scheme whose location is given and is not
    "header" (compared after lower-casing), or whose name is missing or
    empty, makes the builder raise the unsupported-scheme error with the
    scheme's configuration; [generate_locustfile] does not catch it, so
    the run returns the error and no script.  Schemes of a type other
    than [BasicAuth] and [apiKey] are passed over: the builder yields
    what it yields without them. *)
Theorem unsupported_api_key_aborts (strict_level : nat) (data : swagger_data)
    (cfg : security_config) (loc : string) (s : state) :
  NoDup (keys (sw_security data)) ->
  In ("apiKey", cfg) (sw_security data) ->
  sc_in cfg = Some loc ->
  String.eqb (lower loc) "header" && name_given (sc_name cfg) = false ->
  sec_cases (sw_security data) = Raise (ValueError (UnsupportedSecurity cfg))
  /\ fst (generate_locustfile l_templates py strict_level data s) =
     Raise (ValueError (UnsupportedSecurity cfg))
  /\ (forall security_data,
        sec_cases security_data = sec_cases (filter known_scheme security_data)).
Proof.
  intros Hnd Hin Hloc Hbad.
  assert (Hraise : sec_cases (sw_security data) = Raise (ValueError (UnsupportedSecurity cfg))).
  { apply in_split in Hin as (pre & post & Hsplit). rewrite Hsplit in *.
    assert (Hnot : ~ In "apiKey" (keys pre)).
    { unfold keys in Hnd. rewrite map_app in Hnd. cbn [map fst] in Hnd.
      apply NoDup_remove_2 in Hnd. intros H. apply Hnd. apply in_or_app. now left. }
    unfold generate_security_cases.
    destruct (security_loop_before pre (("apiKey", cfg) :: post) Hnot []) as [acc' ->].
    cbn [security_loop]. cbn. rewrite Hloc, Hbad. reflexivity. }
  split; [exact Hraise|]. split.
  - rewrite generate_locustfile_result. cbn zeta. rewrite Hraise.
    destruct (sw_security data); [destruct Hin|reflexivity].
  - intros security_data. unfold generate_security_cases.
    now rewrite security_loop_known.
Qed.

End Security.

Lemma unsupported_api_key_aborts_witness :
  fst (generate_locustfile sample_templates sample_builtins 0
         (mk_swagger (sample_paths_with "put" sample_put)
            [("BasicAuth", mk_security None None);
             ("apiKey", mk_security (Some "query") (Some "X-Key"))] "localhost")
         init_state) =
  Raise (ValueError (UnsupportedSecurity (mk_security (Some "query") (Some "X-Key")))).
Proof.
  refine (proj1 (proj2
    (unsupported_api_key_aborts sample_templates sample_builtins 0
       (mk_swagger (sample_paths_with "put" sample_put)
          [("BasicAuth", mk_security None None);
           ("apiKey", mk_security (Some "query") (Some "X-Key"))] "localhost")
       (mk_security (Some "query") (Some "X-Key")) "query" init_state _ _ _ _))).
  - repeat constructor; simpl; intuition discriminate.
  - right. left. reflexivity.
  - reflexivity.
  - reflexivity.
Defined.

(** A scheme of another type does not fail: the builder yields no
    fragment for it and the run produces a script. *)
Lemma unknown_scheme_ignored :
  known_scheme ("OAuth2", mk_security (Some "query") (Some "token")) = false
  /\ generate_security_cases sample_templates
       [("OAuth2", mk_security (Some "query") (Some "token"))] = Ok ""
  /\ fst (generate_locustfile sample_templates sample_builtins 0
            (mk_swagger [] [("OAuth2", mk_security (Some "query") (Some "token"))]
               "localhost") init_state) = Ok "|||localhost".
Proof. repeat split. Qed.

(** An [apiKey] scheme without location: [None] has no [lower]. *)
Example api_key_without_location :
  generate_security_cases sample_templates [("apiKey", mk_security None (Some "X-Key"))] =
  Raise (AttributeError "lower").
Proof. reflexivity. Qed.

Example api_key_header_any_case :
  generate_security_cases sample_templates
    [("BasicAuth", mk_security None None); ("apiKey", mk_security (Some "Header") (Some "X-Key"))] =
  Ok "auth=basic;header[X-Key];".
Proof. reflexivity. Qed.

(** * The parser *)

Lemma in_dict_set {V : Type} (k k' : string) (v v' : V) (d : dict V) :
  In (k', v') (dict_set k v d) -> (k', v') = (k, v) \/ In (k', v') d.
Proof.
  induction d as [|[k1 v1] d IH]; cbn [dict_set].
  - intros [H|[]]. left. now symmetry.
  - destruct (String.eqb k1 k) eqn:E.
    + apply String.eqb_eq in E. subst k1. intros [H|H]; [left; now symmetry|right; now right].
    + intros [H|H]; [right; now left|]. destruct (IH H) as [H'|H']; [now left|right; now right].
Qed.

Lemma in_register (k : string) (p : param_config) (ws : registrations) :
  forall d, In (k, p) (register ws d) -> In (k, p) ws \/ In (k, p) d.
Proof.
  induction ws as [|[k' q] ws IH]; intros d H; [now right|].
  rewrite register_cons in H. destruct (IH _ H) as [H'|H']; [left; now right|].
  apply in_dict_set in H' as [H'|H']; [left; left; now symmetry|now right].
Qed.

(** The loop returns the dictionary it was given or raises: it never
    assigns. *)
Lemma parse_loop_outcome (params : list param_config) (d : dict param_config) :
  parse_loop params d =
  match find (fun p => negb (passed_over p)) params with
  | None => Ok d
  | Some p => if complete p then Raise (NameError "deepcopy") else Raise NotFullInfo
  end.
Proof.
  induction params as [|p params IH]; [reflexivity|].
  cbn [parse_loop find].
  assert (Hc : negb (present (p_name p)) || negb (present (p_in p)) = negb (complete p))
    by (unfold complete; destruct (present (p_name p)), (present (p_in p)); reflexivity).
  rewrite Hc. unfold passed_over. destruct (complete p) eqn:Ec; cbn [negb andb].
  - now rewrite Ec.
  - destruct (truthy (p_required p)); cbn [negb]; [now rewrite Ec|exact IH].
Qed.

(** X1: as the module stands, [_parse_params] never returns a non-empty
    dictionary.  It returns the empty dictionary exactly when every
    parameter lacks a name or a location and is not required.  Otherwise
    the first parameter that is complete or required decides: a complete
    one raises [NameError] ([deepcopy] is not defined in the module), an
    incomplete required one raises the [ValueError]. *)
Theorem parse_params_outcome (params : list param_config) :
  (forall d, _parse_params params = Ok d <->
             d = [] /\ Forall (fun p => passed_over p = true) params)
  /\ (forall before p after,
        params = before ++ p :: after ->
        Forall (fun q => passed_over q = true) before ->
        complete p = true ->
        _parse_params params = Raise (NameError "deepcopy"))
  /\ (forall before p after,
        params = before ++ p :: after ->
        Forall (fun q => passed_over q = true) before ->
        complete p = false -> truthy (p_required p) = true ->
        _parse_params params = Raise NotFullInfo).
Proof.
  unfold _parse_params. split; [|split].
  - intros d. rewrite parse_loop_outcome.
    destruct (find (fun p => negb (passed_over p)) params) as [p|] eqn:E.
    + split.
      * destruct (complete p); discriminate.
      * intros [_ Hall]. apply find_some in E as [Hin Hp].
        rewrite Forall_forall in Hall. rewrite (Hall p Hin) in Hp. discriminate.
    + split.
      * intros H. injection H as <-. split; [reflexivity|].
        apply Forall_forall. intros p Hin. pose proof (find_none _ _ E p Hin) as Hp.
        now apply negb_false_iff in Hp.
      * now intros [-> _].
  - intros before p after -> Hbefore Hc. rewrite parse_loop_outcome.
    assert (E : find (fun q => negb (passed_over q)) (before ++ p :: after) = Some p).
    { induction Hbefore as [|q before Hq _ IH]; cbn [app find].
      - unfold passed_over. now rewrite Hc.
      - now rewrite Hq. }
    now rewrite E, Hc.
  - intros before p after -> Hbefore Hc Hr. rewrite parse_loop_outcome.
    assert (E : find (fun q => negb (passed_over q)) (before ++ p :: after) = Some p).
    { induction Hbefore as [|q before Hq _ IH]; cbn [app find].
      - unfold passed_over. now rewrite Hc, Hr.
      - now rewrite Hq. }
    now rewrite E, Hc.
Qed.

Example parse_complete_parameter :
  _parse_params [mk_param None (VBool false) VNone (Some "orphan"); sample_limit] =
  Raise (NameError "deepcopy").
Proof. reflexivity. Qed.

(** * More on the extractor *)

(** X5: extraction stops at the first parameter it rejects, in
    declaration order: the parameters before it have valid locations
    (and, at strict level 2, defaults); the error is the invalid-location
    error if its location is invalid, and otherwise (only at strict
    level 2) the missing-default error. *)
Theorem extraction_error_is_first_rejected (strict_level : nat)
    (params : dict param_config) (e : value_error) :
  _extract_params strict_level params = Raise e ->
  exists before param cfg after,
    params = before ++ (param, cfg) :: after
    /\ Forall (fun item => valid_location (snd item) = true /\
                           (strict_level = 2 -> has_default (snd item) = true)) before
    /\ ((valid_location cfg = false /\ e = NotValidIn param (p_in cfg) cfg)
        \/ (strict_level = 2 /\ valid_location cfg = true /\ has_default cfg = false /\
            e = NoDefaultValue (p_in cfg) param)).
Proof.
  rewrite extract_params_spec. unfold extract_spec.
  destruct (find _ params) as [[param cfg]|] eqn:E; [|discriminate].
  intros H. injection H as <-.
  destruct (find_first _ _ _ E) as (before & after & -> & Hb & Hrej).
  exists before, param, cfg, after. split; [reflexivity|]. split.
  - eapply Forall_impl; [|exact Hb]. intros [p c] Hc. cbn [snd] in *.
    unfold rejected in Hc. apply orb_false_iff in Hc as [Hv Hd].
    apply negb_false_iff in Hv. split; [exact Hv|]. intros ->.
    cbn [Nat.eqb andb] in Hd. now apply negb_false_iff in Hd.
  - cbn [snd] in Hrej. unfold rejected in Hrej. unfold rejection.
    destruct (valid_location cfg); [right|left; now split].
    cbn [negb orb] in Hrej. apply andb_true_iff in Hrej as [Hl Hd].
    apply Nat.eqb_eq in Hl. apply negb_true_iff in Hd. auto.
Qed.

Lemma extraction_error_is_first_rejected_witness :
  exists before param cfg after,
    get_params sample_patch = before ++ (param, cfg) :: after
    /\ Forall (fun item => valid_location (snd item) = true /\
                           (2 = 2 -> has_default (snd item) = true)) before
    /\ ((valid_location cfg = false /\
         NoDefaultValue (Some "query") "id" = NotValidIn param (p_in cfg) cfg)
        \/ (2 = 2 /\ valid_location cfg = true /\ has_default cfg = false /\
            NoDefaultValue (Some "query") "id" = NoDefaultValue (p_in cfg) param)).
Proof.
  exact (extraction_error_is_first_rejected 2 (get_params sample_patch)
           (NoDefaultValue (Some "query") "id") eq_refl).
Defined.

Lemma extract_ok_buckets (lvl : nat) (params : dict param_config) (ex : extracted) :
  _extract_params lvl params = Ok ex ->
  ex = buckets_of lvl params /\
  Forall (fun item => rejected lvl (snd item) = false) params.
Proof.
  rewrite extract_params_spec. unfold extract_spec.
  destruct (find _ params) as [[p c]|] eqn:E; [discriminate|].
  intros H. injection H as <-. split; [reflexivity|].
  apply Forall_forall. intros item Hin. apply (find_none _ _ E item Hin).
Qed.

Lemma extract_ok_of_accepted (lvl : nat) (params : dict param_config) :
  Forall (fun item => rejected lvl (snd item) = false) params ->
  _extract_params lvl params = Ok (buckets_of lvl params).
Proof.
  intros H. rewrite extract_params_spec. unfold extract_spec.
  now rewrite find_rejected_none.
Qed.

Lemma bucket_of_ext (lvl lvl' : nat) (t : target) (params : dict param_config) :
  Forall (fun item => included lvl (snd item) = included lvl' (snd item)) params ->
  bucket_of lvl t params = bucket_of lvl' t params.
Proof.
  intros H. unfold bucket_of. f_equal; apply filter_ext_in; intros c Hc;
    apply in_map_iff in Hc as (item & <- & Hin);
    rewrite Forall_forall in H; now rewrite (H item Hin).
Qed.

(** X6: if extraction succeeds at strict level 2 then it succeeds at
    strict levels 0 and 1 with the very same buckets: the three levels
    differ only on parameters without default. *)
Theorem strict_level_2_success_is_level_free (params : dict param_config) (ex : extracted) :
  _extract_params 2 params = Ok ex ->
  _extract_params 0 params = Ok ex /\ _extract_params 1 params = Ok ex.
Proof.
  intros H. apply extract_ok_buckets in H as [-> Hacc].
  assert (Hall : Forall (fun item => valid_location (snd item) = true /\
                                     has_default (snd item) = true) params).
  { eapply Forall_impl; [|exact Hacc]. intros item Hr. unfold rejected in Hr.
    apply orb_false_iff in Hr as [Hv Hd]. apply negb_false_iff in Hv.
    cbn [Nat.eqb andb] in Hd. apply negb_false_iff in Hd. now split. }
  split.
  - rewrite extract_ok_of_accepted.
    + f_equal. unfold buckets_of. f_equal; apply bucket_of_ext;
        (eapply Forall_impl; [|exact Hall]); intros item [_ Hd]; cbn [included];
        now rewrite Hd.
    + eapply Forall_impl; [|exact Hall]. intros item [Hv _]. unfold rejected.
      now rewrite Hv.
  - rewrite extract_ok_of_accepted.
    + f_equal. unfold buckets_of. f_equal; apply bucket_of_ext;
        (eapply Forall_impl; [|exact Hall]); intros item [_ Hd]; cbn [included];
        now rewrite Hd.
    + eapply Forall_impl; [|exact Hall]. intros item [Hv _]. unfold rejected.
      now rewrite Hv.
Qed.

Lemma strict_level_2_success_is_level_free_witness :
  _extract_params 0 (get_params sample_get) =
    Ok (mk_extracted (mk_bucket [sample_pet] []) (mk_bucket [] [sample_limit])
          empty_bucket empty_bucket)
  /\ _extract_params 1 (get_params sample_get) =
    Ok (mk_extracted (mk_bucket [sample_pet] []) (mk_bucket [] [sample_limit])
          empty_bucket empty_bucket).
Proof.
  exact (strict_level_2_success_is_level_free (get_params sample_get) _ eq_refl).
Defined.

(** The eight lists of the buckets. *)
Lemma buckets_total_length (lvl : nat) (l : list param_config) :
  Forall (fun c => valid_location c = true) l ->
  let count t req :=
    List.length (filter (fun c => located_at t c && Bool.eqb (is_required c) req &&
                                  included lvl c) l) in
  count TPath true + count TPath false + count TQuery true + count TQuery false +
  count THeader true + count THeader false + count TCookie true + count TCookie false =
  List.length (filter (included lvl) l).
Proof.
  cbn zeta. induction 1 as [|c l Hv _ IH]; [reflexivity|].
  cbn [filter]. unfold located_at in *. unfold valid_location in Hv.
  destruct (select_target (p_in c)) as [t|]; [|discriminate].
  destruct t, (is_required c), (included lvl c);
    cbn [target_eqb Bool.eqb andb List.length] in *; lia.
Qed.

(** X7: at strict level 0, when all locations are valid, extraction
    succeeds and files every declared parameter: each bucket side holds,
    in declaration order, the declared parameters of its location and
    requiredness, and the eight lists together have as many elements as
    there are declared parameters. *)
Theorem strict_level_0_keeps_all (params : dict param_config) :
  Forall (fun item => valid_location (snd item) = true) params ->
  exists ex,
    _extract_params 0 params = Ok ex
    /\ (forall t req,
          bucket_side req (get_target t ex) =
          filter (fun c => located_at t c && Bool.eqb (is_required c) req) (map snd params))
    /\ List.length (required (path_params ex)) + List.length (not_required (path_params ex)) +
       List.length (required (query_params ex)) + List.length (not_required (query_params ex)) +
       List.length (required (header_params ex)) + List.length (not_required (header_params ex)) +
       List.length (required (cookie_params ex)) + List.length (not_required (cookie_params ex)) =
       List.length params.
Proof.
  intros Hvalid. exists (buckets_of 0 params). split; [|split].
  - apply extract_ok_of_accepted. eapply Forall_impl; [|exact Hvalid].
    intros item Hv. unfold rejected. now rewrite Hv.
  - intros t req. rewrite get_target_buckets_of. unfold bucket_side, bucket_of.
    destruct req; cbn [required not_required included]; apply filter_ext; intros c;
      destruct (located_at t c), (is_required c); reflexivity.
  - assert (Hl : Forall (fun c => valid_location c = true) (map snd params)).
    { apply Forall_map. exact Hvalid. }
    pose proof (buckets_total_length 0 (map snd params) Hl) as Htot. cbn zeta in Htot.
    assert (Hfull : filter (included 0) (map snd params) = map snd params).
    { clear. induction (map snd params) as [|c l IH]; [reflexivity|].
      cbn [filter included]. now rewrite IH. }
    rewrite Hfull, length_map in Htot. rewrite <- Htot.
    unfold buckets_of, bucket_of.
    cbn [path_params query_params header_params cookie_params required not_required].
    repeat match goal with
    | |- context [filter ?f (map snd params)] =>
        match f with
        | (fun cfg => located_at ?t cfg && is_required cfg && included 0 cfg) =>
            rewrite (filter_ext f
              (fun c => located_at t c && Bool.eqb (is_required c) true && included 0 c))
              by (intros c; destruct (located_at t c), (is_required c); reflexivity)
        | (fun cfg => located_at ?t cfg && negb (is_required cfg) && included 0 cfg) =>
            rewrite (filter_ext f
              (fun c => located_at t c && Bool.eqb (is_required c) false && included 0 c))
              by (intros c; destruct (located_at t c), (is_required c); reflexivity)
        end
    end.
    reflexivity.
Qed.

Lemma strict_level_0_keeps_all_witness :
  exists ex,
    _extract_params 0 sample_params = Ok ex
    /\ (forall t req,
          bucket_side req (get_target t ex) =
          filter (fun c => located_at t c && Bool.eqb (is_required c) req)
            (map snd sample_params))
    /\ List.length (required (path_params ex)) + List.length (not_required (path_params ex)) +
       List.length (required (query_params ex)) + List.length (not_required (query_params ex)) +
       List.length (required (header_params ex)) + List.length (not_required (header_params ex)) +
       List.length (required (cookie_params ex)) + List.length (not_required (cookie_params ex)) =
       List.length sample_params.
Proof.
  apply (strict_level_0_keeps_all sample_params). repeat constructor.
Defined.

(** X8: a strict level other than 0, 1 and 2 includes no parameter and
    raises for no missing default: when all locations are valid every
    bucket is empty and each location has the one, empty, combination. *)
Theorem unknown_strict_level_includes_nothing (strict_level : nat) (params : dict param_config) :
  3 <= strict_level ->
  Forall (fun item => valid_location (snd item) = true) params ->
  _extract_params strict_level params = Ok empty_extracted
  /\ generate_params strict_level params = Ok (mk_combinations [[]] [[]] [[]] [[]]).
Proof.
  intros Hl Hvalid.
  assert (Hex : _extract_params strict_level params = Ok empty_extracted).
  { rewrite extract_ok_of_accepted.
    - f_equal. unfold buckets_of, bucket_of, empty_extracted, empty_bucket.
      assert (Hnone : forall f : param_config -> bool,
                filter (fun c => f c && included strict_level c) (map snd params) = []).
      { intros f. induction (map snd params) as [|c l IH]; [reflexivity|].
        cbn [filter]. unfold included at 1.
        destruct strict_level as [|[|[|n]]]; try lia. rewrite andb_false_r. exact IH. }
      now rewrite !Hnone.
    - eapply Forall_impl; [|exact Hvalid]. intros item Hv. unfold rejected. rewrite Hv.
      destruct strict_level as [|[|[|n]]]; try lia. reflexivity. }
  split; [exact Hex|]. unfold generate_params. now rewrite Hex.
Qed.

Lemma unknown_strict_level_includes_nothing_witness :
  _extract_params 7 sample_params = Ok empty_extracted
  /\ generate_params 7 sample_params = Ok (mk_combinations [[]] [[]] [[]] [[]]).
Proof.
  apply (unknown_strict_level_includes_nothing 7 sample_params).
  - lia.
  - repeat constructor.
Defined.

(** * More on the combination enumerator *)

Lemma combinations_incl {A : Type} (pool : list A) :
  forall r c, In c (combinations pool r) -> incl c pool.
Proof.
  induction pool as [|x pool IH]; intros [|r] c Hin; simpl in Hin.
  - destruct Hin as [<-|[]]. intros y [].
  - destruct Hin.
  - destruct Hin as [<-|[]]. intros y [].
  - apply in_app_or in Hin as [Hin|Hin].
    + apply in_map_iff in Hin as (c' & <- & Hc'). intros y [<-|Hy]; [now left|].
      right. exact (IH r c' Hc' y Hy).
    + intros y Hy. right. exact (IH (S r) c Hin y Hy).
Qed.

Lemma combinations_full {A : Type} (pool : list A) :
  combinations pool (List.length pool) = [pool].
Proof.
  induction pool as [|x pool IH]; [reflexivity|].
  cbn [List.length combinations]. rewrite IH, combinations_too_many by lia. reflexivity.
Qed.

Lemma NoDup_map_cons {A : Type} (x : A) (l : list (list A)) :
  NoDup l -> NoDup (map (cons x) l).
Proof.
  induction 1 as [|c l Hnot _ IH]; cbn [map]; constructor; [|exact IH].
  intros Hin. apply in_map_iff in Hin as (c' & E & Hc'). injection E as ->. contradiction.
Qed.

Lemma NoDup_combinations {A : Type} (pool : list A) :
  NoDup pool -> forall r, NoDup (combinations pool r).
Proof.
  induction 1 as [|x pool Hnot _ IH]; intros [|r]; cbn [combinations];
    try (repeat constructor; intros []).
  apply NoDup_app.
  - apply NoDup_map_cons, IH.
  - apply IH.
  - intros c Hc Hc'. apply in_map_iff in Hc as (c0 & <- & _).
    apply combinations_incl in Hc'. apply Hnot, Hc'. now left.
Qed.

Lemma NoDup_map_app {A : Type} (R : list A) (l : list (list A)) :
  NoDup l -> NoDup (map (app R) l).
Proof.
  induction 1 as [|c l Hnot _ IH]; cbn [map]; constructor; [|exact IH].
  intros Hin. apply in_map_iff in Hin as (c' & E & Hc').
  apply app_inv_head in E. now subst.
Qed.

Lemma create_params_combinations_first (R O : list param_config) :
  exists rest, _create_params_combinations (mk_bucket R O) = R :: rest.
Proof.
  unfold _create_params_combinations. cbn [required not_required].
  rewrite Nat.add_1_r. cbn [seq flat_map]. rewrite combinations_zero. cbn [map app].
  rewrite app_nil_r. eexists. reflexivity.
Qed.

(** X9: the first combination the enumerator yields is the required
    parameters alone and the last one is the required parameters followed
    by all optional ones; when there is no optional parameter the required
    parameters are the only combination.  The list is never empty. *)
Theorem create_params_combinations_ends (R O : list param_config) :
  (exists rest, _create_params_combinations (mk_bucket R O) = R :: rest)
  /\ last (_create_params_combinations (mk_bucket R O)) [] = R ++ O
  /\ _create_params_combinations (mk_bucket R []) = [R].
Proof.
  split; [apply create_params_combinations_first|].
  unfold _create_params_combinations. cbn [required not_required]. split.
  - rewrite Nat.add_1_r, seq_S, flat_map_app. cbn [flat_map Nat.add].
    rewrite combinations_full. cbn [map]. rewrite app_nil_r. apply last_last.
  - cbn. now rewrite app_nil_r.
Qed.

(** X10: when the optional parameters of a bucket are pairwise distinct
    no combination is yielded twice. *)
Theorem create_params_combinations_distinct (R O : list param_config) :
  NoDup O -> NoDup (_create_params_combinations (mk_bucket R O)).
Proof.
  intros Hnd. unfold _create_params_combinations. cbn [required not_required].
  assert (H : forall counts, NoDup counts ->
            NoDup (flat_map (fun r => map (app R) (combinations O r)) counts)).
  { induction 1 as [|a counts Hnot _ IH]; [constructor|].
    cbn [flat_map]. apply NoDup_app.
    - apply NoDup_map_app. now apply NoDup_combinations.
    - exact IH.
    - intros c Hc Hc'. apply in_map_iff in Hc as (c0 & <- & Hc0).
      apply in_flat_map in Hc' as (b & Hb & Hc').
      apply in_map_iff in Hc' as (c1 & E & Hc1). apply app_inv_head in E. subst c1.
      apply combinations_length_elem in Hc0, Hc1. subst. contradiction. }
  apply H. apply seq_NoDup.
Qed.

Lemma create_params_combinations_distinct_witness :
  NoDup (_create_params_combinations (mk_bucket [sample_id] [sample_limit; sample_page])).
Proof.
  apply (create_params_combinations_distinct [sample_id] [sample_limit; sample_page]).
  repeat constructor; simpl; intuition discriminate.
Defined.

Lemma length_create_params_combinations (b : bucket) :
  List.length (_create_params_combinations b) = 2 ^ List.length (not_required b).
Proof.
  destruct b as [R O]. rewrite create_params_combinations_positions.
  now rewrite length_map, length_index_subsets.
Qed.

Lemma located_count (g : param_config -> bool) (l : list param_config) :
  Forall (fun c => valid_location c = true) l ->
  List.length (filter (fun c => located_at TPath c && g c) l) +
  List.length (filter (fun c => located_at TQuery c && g c) l) +
  List.length (filter (fun c => located_at THeader c && g c) l) +
  List.length (filter (fun c => located_at TCookie c && g c) l) =
  List.length (filter g l).
Proof.
  induction 1 as [|c l Hv _ IH]; [reflexivity|].
  cbn [filter]. unfold located_at in *. unfold valid_location in Hv.
  destruct (select_target (p_in c)) as [t|]; [|discriminate].
  destruct t, (g c); cbn [target_eqb andb List.length] in *; lia.
Qed.

(** X11: an operation whose extraction succeeds has [2 ^ k] cases, [k]
    being the number of its declared parameters that are optional and
    included at the strict level: every such parameter doubles the number
    of test functions. *)
Theorem case_count_doubles_per_optional (strict_level : nat) (params : dict param_config)
    (pc : params_combinations) :
  generate_params strict_level params = Ok pc ->
  List.length (c_path_params pc) * List.length (c_query_params pc) *
  List.length (c_header_params pc) * List.length (c_cookie_params pc) =
  2 ^ List.length (filter (fun c => negb (is_required c) && included strict_level c)
                     (map snd params)).
Proof.
  unfold generate_params. destruct (_extract_params strict_level params) as [ex|] eqn:E;
    [|discriminate].
  intros H. injection H as <-. cbn [c_path_params c_query_params c_header_params c_cookie_params].
  apply extract_ok_buckets in E as [-> Hacc].
  rewrite !length_create_params_combinations, <- !Nat.pow_add_r. f_equal.
  assert (Hv : Forall (fun c => valid_location c = true) (map snd params)).
  { apply Forall_map. eapply Forall_impl; [|exact Hacc]. intros item Hr.
    unfold rejected in Hr. apply orb_false_iff in Hr as [Hv _]. now apply negb_false_iff in Hv. }
  rewrite <- (located_count _ _ Hv).
  unfold buckets_of, bucket_of.
  cbn [path_params query_params header_params cookie_params not_required].
  assert (Hf : forall t,
            filter (fun cfg => located_at t cfg && negb (is_required cfg) &&
                               included strict_level cfg) (map snd params) =
            filter (fun c => located_at t c &&
                             (negb (is_required c) && included strict_level c))
              (map snd params)).
  { intros t. apply filter_ext. intros c. now rewrite andb_assoc. }
  now rewrite !Hf.
Qed.

Lemma case_count_doubles_per_optional_witness :
  List.length (c_path_params sample_combinations) *
  List.length (c_query_params sample_combinations) *
  List.length (c_header_params sample_combinations) *
  List.length (c_cookie_params sample_combinations) =
  2 ^ List.length (filter (fun c => negb (is_required c) && included 0 c)
                     (map snd sample_params)).
Proof.
  exact (case_count_doubles_per_optional 0 sample_params sample_combinations eq_refl).
Defined.

(** * More on the assembler and the orchestrator *)

Lemma keys_register_prefix (ws : registrations) :
  forall d, exists new, keys (register ws d) = keys d ++ new.
Proof.
  induction ws as [|[k p] ws IH]; intros d; [exists []; now rewrite app_nil_r|].
  rewrite register_cons. destruct (IH (dict_set k p d)) as [new ->].
  rewrite keys_set. destruct (existsb (String.eqb k) (keys d)).
  - now exists new.
  - exists (k :: new). now rewrite <- app_assoc.
Qed.

Lemma last_registered_none (k : string) (ws : registrations) :
  ~ In k (map fst ws) -> last_registered k ws = None.
Proof.
  intros Hnot. destruct (last_registered k ws) as [p|] eqn:E; [|reflexivity].
  apply last_registered_in in E. exfalso. apply Hnot. apply in_map_iff. now exists (k, p).
Qed.

Section MoreAssembler.

Variable l_templates : templates.
Variable py : builtins.

(** X12: formatting a parameter list only adds to the placeholder table:
    the keys it had stay where they were, a key that is the token of no
    default-less parameter of the list keeps its entry, and a list whose
    parameters all have defaults leaves the table as it is. *)
Theorem format_params_only_adds (raw_params : list param_config) (test_count : nat)
    (param_type : string) (vars : dict param_config) :
  let vars' := snd (_format_params l_templates py raw_params test_count param_type vars) in
  (exists new, keys vars' = keys vars ++ new)
  /\ (forall k,
        (forall p, In p raw_params -> has_default p = false ->
                   placeholder (p_name p) test_count <> k) ->
        dict_get k vars' = dict_get k vars)
  /\ (Forall (fun p => has_default p = true) raw_params -> vars' = vars).
Proof.
  cbn zeta. rewrite format_params_spec. cbn [snd]. split; [|split].
  - apply keys_register_prefix.
  - intros k Hk. rewrite dict_get_register, last_registered_none; [reflexivity|].
    intros Hin. apply in_map_iff in Hin as ([k' p] & E & Hin). cbn [fst] in E. subst k'.
    apply in_block_registrations in Hin as (Hp & Hd & Htok). exact (Hk p Hp Hd (eq_sym Htok)).
  - intros Hall. induction Hall as [|p raw Hp _ IH]; [reflexivity|].
    rewrite block_registrations_cons, Hp. exact IH.
Qed.

(** X13: an operation without parameters (no [params] entry, or an empty
    one) yields, at every strict level, exactly one test function, case 0,
    with nothing added to the path and empty mappings for query, header
    and cookie; it takes a sequence number and leaves the placeholder
    table and the warnings as they are. *)
Theorem operation_without_params (strict_level : nat) (path method : string)
    (md : method_data) (r : run) :
  get_params md = [] ->
  method_step l_templates py strict_level path r (method, md) =
  mk_run
    (r_funcs r ++
     [FUNC_TEMPLATE l_templates
        ("test_" +++ str_nat (r_test_count r) +++ "_case_" +++ str_nat 0)
        method path "" "{}" "{}" "{}"])
    (r_test_count r + 1)
    (r_state r).
Proof.
  intros H. unfold method_step. rewrite H.
  destruct r as [fs tc [vs ws]]. reflexivity.
Qed.

Section MoreOrchestrator.

Variable strict_level : nat.

Local Abbreviation run_out := (run_outcome l_templates py strict_level).
Local Abbreviation p_loop := (paths_loop l_templates py strict_level).
Local Abbreviation gen_cases := (generate_test_cases l_templates py strict_level).
Local Abbreviation gen_file := (generate_locustfile l_templates py strict_level).

Lemma run_outcome_accounting (ops : list operation) :
  forall tc,
    o_next (run_out ops tc) + List.length (o_warnings (run_out ops tc)) =
    tc + List.length ops.
Proof.
  induction ops as [|[path [method md]] ops IH]; intros tc.
  - cbn. lia.
  - cbn [run_outcome o_next o_warnings List.length]. rewrite length_app.
    specialize (IH (o_next (op_outcome l_templates py strict_level (path, (method, md)) tc))).
    unfold op_outcome in *.
    destruct (generate_params strict_level (get_params md));
      cbn [o_next o_warnings List.length] in *; lia.
Qed.

(** X14: every operation either takes a sequence number or leaves a
    warning, never both and never neither: over a run the counter and the
    number of warnings grow together by the number of operations. *)
Theorem every_operation_counted_or_warned (paths_data : dict (dict method_data)) (r : run) :
  let r' := p_loop paths_data r in
  r_test_count r' + List.length (warnings (r_state r')) =
  r_test_count r + List.length (warnings (r_state r)) +
  list_sum (map (fun item => List.length (snd item)) paths_data).
Proof.
  cbn zeta. rewrite paths_loop_spec. unfold apply_outcome.
  cbn [r_test_count r_state warnings]. rewrite length_app.
  pose proof (run_outcome_accounting (operations paths_data) (r_test_count r)) as H.
  assert (Hops : List.length (operations paths_data) =
                 list_sum (map (fun item => List.length (snd item)) paths_data)).
  { unfold operations. rewrite length_flat_map. f_equal. apply map_ext.
    intros [path ms]. cbn [snd]. apply length_map. }
  lia.
Qed.

(** X15: a run never takes a placeholder out of the generator, whether
    it returns a script or raises: the keys the table had are the first
    keys of the table it leaves, and the warnings it had are the first of
    those it leaves. *)
Theorem run_keeps_placeholders (data : swagger_data) (s : state) :
  let s' := snd (gen_file data s) in
  (exists new, keys (vars_without_values s') = keys (vars_without_values s) ++ new)
  /\ (exists logged, warnings s' = warnings s ++ logged).
Proof.
  cbn zeta. rewrite generate_locustfile_state, generate_test_cases_spec.
  cbn [snd vars_without_values warnings]. split.
  - apply keys_register_prefix.
  - eexists. reflexivity.
Qed.

End MoreOrchestrator.

End MoreAssembler.

Lemma operation_without_params_witness :
  method_step sample_templates sample_builtins 2 "/pets" (mk_run [] 4 init_state)
    ("delete", sample_delete) =
  mk_run ["def test_4_case_0(l): l.client.delete(/pets, params={}, headers={}, cookies={});"]
    5 init_state.
Proof.
  exact (operation_without_params sample_templates sample_builtins 2 "/pets" "delete"
           sample_delete (mk_run [] 4 init_state) eq_refl).
Defined.

(** * Where placeholders and names come from *)

Lemma in_create_params_combinations (b : bucket) (c : list param_config) (p : param_config) :
  In c (_create_params_combinations b) -> In p c ->
  In p (required b) \/ In p (not_required b).
Proof.
  unfold _create_params_combinations. intros Hc Hp.
  apply in_flat_map in Hc as (r & _ & Hc). apply in_map_iff in Hc as (c' & <- & Hc').
  apply in_app_or in Hp as [Hp|Hp]; [now left|right].
  exact (combinations_incl _ _ _ Hc' p Hp).
Qed.

Lemma in_bucket_of (lvl : nat) (t : target) (params : dict param_config) (p : param_config) :
  In p (required (bucket_of lvl t params)) \/ In p (not_required (bucket_of lvl t params)) ->
  In p (map snd params) /\ valid_location p = true /\ included lvl p = true.
Proof.
  assert (H : forall b, In p (bucket_side b (bucket_of lvl t params)) ->
                In p (map snd params) /\ valid_location p = true /\ included lvl p = true).
  { intros b Hb. apply in_bucket_side in Hb as (Hin & Hloc & _ & Hinc).
    repeat split; auto. unfold located_at in Hloc. unfold valid_location.
    destruct (select_target (p_in p)); [reflexivity|discriminate]. }
  intros [Hp|Hp]; [apply (H true)|apply (H false)]; exact Hp.
Qed.

(** The parameters of a case are declared, validly located and included. *)
Lemma in_case_of_params (lvl : nat) (params : dict param_config) (pc : params_combinations)
    (c : case_params) (p : param_config) :
  generate_params lvl params = Ok pc ->
  In c (cross pc) ->
  In p (fst c ++ fst (snd c) ++ fst (snd (snd c)) ++ snd (snd (snd c))) ->
  In p (map snd params) /\ valid_location p = true /\ included lvl p = true.
Proof.
  unfold generate_params. destruct (_extract_params lvl params) as [ex|] eqn:E; [|discriminate].
  intros H. injection H as <-. apply extract_ok_buckets in E as [-> _].
  destruct c as (pp & qp & hp & cp). unfold cross, case_params.
  cbn [c_path_params c_query_params c_header_params c_cookie_params fst snd
       path_params query_params header_params cookie_params buckets_of].
  rewrite !in_prod_iff, !in_app_iff. intros (Hpp & Hqp & Hhp & Hcp) [Hp|[Hp|[Hp|Hp]]].
  - apply (in_bucket_of lvl TPath). exact (in_create_params_combinations _ _ _ Hpp Hp).
  - apply (in_bucket_of lvl TQuery). exact (in_create_params_combinations _ _ _ Hqp Hp).
  - apply (in_bucket_of lvl THeader). exact (in_create_params_combinations _ _ _ Hhp Hp).
  - apply (in_bucket_of lvl TCookie). exact (in_create_params_combinations _ _ _ Hcp Hp).
Qed.

Lemma NoDup_map_injective {X Y : Type} (f : X -> Y) (l : list X) :
  (forall x y, f x = f y -> x = y) -> NoDup l -> NoDup (map f l).
Proof.
  intros Hinj. induction 1 as [|x l Hnot _ IH]; cbn [map]; constructor; [|exact IH].
  intros Hin. apply in_map_iff in Hin as (y & E & Hy). apply Hinj in E. now subst.
Qed.

Section Origins.

Variable l_templates : templates.
Variable py : builtins.
Variable strict_level : nat.

Local Abbreviation run_out := (run_outcome l_templates py strict_level).
Local Abbreviation p_loop := (paths_loop l_templates py strict_level).
Local Abbreviation gen_cases := (generate_test_cases l_templates py strict_level).

Lemma run_outcome_next_bounds (ops : list operation) (tc : nat) :
  tc <= o_next (run_out ops tc) <= tc + List.length ops.
Proof.
  rewrite run_outcome_next. pose proof (filter_length_le (extracts strict_level) ops). lia.
Qed.

(** Every registration of a run comes from a default-less parameter of
    one of its operations, under the sequence number of that operation. *)
Lemma registrations_origin (ops : list operation) :
  forall tc k p,
    In (k, p) (o_registrations (run_out ops tc)) ->
    exists seq path method md,
      tc <= seq < o_next (run_out ops tc)
      /\ In (path, (method, md)) ops
      /\ In p (map snd (get_params md))
      /\ k = placeholder (p_name p) seq
      /\ has_default p = false /\ valid_location p = true
      /\ included strict_level p = true.
Proof.
  induction ops as [|[path [method md]] ops IH]; intros tc k p Hin; [destruct Hin|].
  cbn [run_outcome o_registrations o_next] in *.
  set (o := op_outcome l_templates py strict_level (path, (method, md)) tc) in *.
  pose proof (run_outcome_next_bounds ops (o_next o)) as Hb.
  assert (Ho : tc <= o_next o) by
    (subst o; unfold op_outcome; destruct (generate_params strict_level (get_params md));
     cbn [o_next]; lia).
  apply in_app_or in Hin as [Hin|Hin].
  - subst o. unfold op_outcome in Hin, Hb |- *.
    destruct (generate_params strict_level (get_params md)) as [pc|e] eqn:E;
      cbn [o_registrations o_next] in *; [|destruct Hin].
    apply in_flat_map in Hin as (c & Hc & Hin).
    apply in_case_registrations in Hin as (Hp & Hd & Hk).
    destruct (in_case_of_params _ _ _ _ _ E Hc Hp) as (Hdecl & Hv & Hinc).
    exists tc, path, method, md. repeat split; auto; try lia. now left.
  - destruct (IH _ _ _ Hin) as (seq & path' & method' & md' & Hseq & Hop & Hrest).
    exists seq, path', method', md'. split; [lia|]. split; [now right|exact Hrest].
Qed.

(** X16: every entry of the placeholder table that a run adds is the
    token [<name>_test_<seq>] of a declared parameter of one of the
    operations, which has no default, a valid location, and is included
    at the strict level; at strict level 1 such a parameter is required. *)
Theorem placeholder_entries_origin (paths_data : dict (dict method_data)) (s : state)
    (k : string) (p : param_config) :
  In (k, p) (vars_without_values (snd (gen_cases paths_data s))) ->
  In (k, p) (vars_without_values s)
  \/ exists seq path method md,
       In (path, (method, md)) (operations paths_data)
       /\ In p (map snd (get_params md))
       /\ k = str_opt (p_name p) +++ "_test_" +++ str_nat seq
       /\ seq < List.length (operations paths_data)
       /\ has_default p = false /\ valid_location p = true
       /\ included strict_level p = true
       /\ (strict_level = 1 -> is_required p = true).
Proof.
  rewrite generate_test_cases_spec. cbn [snd vars_without_values]. intros Hin.
  apply in_register in Hin as [Hin|Hin]; [right|now left].
  destruct (registrations_origin _ _ _ _ Hin)
    as (seq & path & method & md & Hseq & Hop & Hdecl & Hk & Hd & Hv & Hinc).
  pose proof (run_outcome_next_bounds (operations paths_data) 0).
  exists seq, path, method, md. repeat split; auto; try lia.
  intros ->. cbn [included] in Hinc. rewrite Hd in Hinc. exact Hinc.
Qed.

End Origins.

Lemma placeholder_entries_origin_witness :
  In ("id_test_2", sample_id) []
  \/ exists seq path method md,
       In (path, (method, md)) (operations sample_paths_full)
       /\ In sample_id (map snd (get_params md))
       /\ "id_test_2" = str_opt (p_name sample_id) +++ "_test_" +++ str_nat seq
       /\ seq < List.length (operations sample_paths_full)
       /\ has_default sample_id = false /\ valid_location sample_id = true
       /\ included 1 sample_id = true
       /\ (1 = 1 -> is_required sample_id = true).
Proof.
  apply (placeholder_entries_origin sample_templates sample_builtins 1 sample_paths_full
           init_state "id_test_2" sample_id).
  vm_compute. right. left. reflexivity.
Defined.

Section LevelTwo.

Variable l_templates : templates.
Variable py : builtins.

(** X17: at strict level 2 no placeholder is ever registered: a run
    leaves the table as it found it, and the file of a new generator has
    an empty declarations block. *)
Theorem strict_level_2_registers_nothing (paths_data : dict (dict method_data)) (s : state) :
  vars_without_values (snd (generate_test_cases l_templates py 2 paths_data s)) =
    vars_without_values s
  /\ forall test_cases security_cases host,
       generate_code_from_template l_templates py test_cases security_cases host
         (snd (generate_test_cases l_templates py 2 paths_data init_state)) =
       FILE_TEMPLATE l_templates "" test_cases security_cases host.
Proof.
  assert (Hnone : forall tc,
            o_registrations (run_outcome l_templates py 2 (operations paths_data) tc) = []).
  { intros tc.
    destruct (o_registrations (run_outcome l_templates py 2 (operations paths_data) tc))
      as [|[k p] ws] eqn:E; [reflexivity|].
    assert (Hin : In (k, p)
              (o_registrations (run_outcome l_templates py 2 (operations paths_data) tc)))
      by (rewrite E; now left).
    apply registrations_origin in Hin
      as (_ & _ & _ & _ & _ & _ & _ & _ & Hd & _ & Hinc).
    cbn [included] in Hinc. congruence. }
  assert (Hvars : forall s0,
            vars_without_values (snd (generate_test_cases l_templates py 2 paths_data s0)) =
            vars_without_values s0).
  { intros s0. rewrite generate_test_cases_spec. cbn [snd vars_without_values].
    now rewrite Hnone. }
  split; [apply Hvars|].
  intros test_cases security_cases host. unfold generate_code_from_template.
  now rewrite Hvars.
Qed.

(** X18: when the test-function template renders the name it is given,
    the functions of a run are pairwise distinct: no two cases of a run
    are given the same name. *)
Theorem function_names_distinct (strict_level : nat) (paths_data : dict (dict method_data))
    (s : state) :
  (forall name method path pp qp hp cp,
     FUNC_TEMPLATE l_templates name method path pp qp hp cp = name) ->
  NoDup (r_funcs (paths_loop l_templates py strict_level paths_data (mk_run [] 0 s))).
Proof.
  intros Hname. rewrite paths_loop_spec. unfold apply_outcome. cbn [r_funcs app r_test_count].
  assert (Hcases : forall method path tc cs c,
            case_funcs l_templates py method path tc c cs =
            map (func_name tc) (seq c (List.length cs))).
  { intros method path tc cs. induction cs as [|x cs IH]; intros c; [reflexivity|].
    cbn [case_funcs List.length seq map]. rewrite IH. f_equal.
    destruct x as (pp & qp & hp & cp). apply Hname. }
  assert (H : forall ops tc,
            NoDup (o_funcs (run_outcome l_templates py strict_level ops tc)) /\
            forall f, In f (o_funcs (run_outcome l_templates py strict_level ops tc)) ->
                      exists seq i, f = func_name seq i /\ tc <= seq).
  { induction ops as [|[path [method md]] ops IH]; intros tc.
    - split; [constructor|intros f []].
    - cbn [run_outcome o_funcs].
      set (o := op_outcome l_templates py strict_level (path, (method, md)) tc).
      destruct (IH (o_next o)) as [Hnd Hge].
      assert (Ho : (o_funcs o = [] /\ o_next o = tc) \/
                   (exists n, o_funcs o = map (func_name tc) (seq 0 n) /\ o_next o = tc + 1)).
      { subst o. unfold op_outcome.
        destruct (generate_params strict_level (get_params md)) as [pc|e];
          cbn [o_funcs o_next]; [right|left; now split].
        exists (List.length (cross pc)). now rewrite Hcases. }
      destruct Ho as [[-> Hn]|(n & -> & Hn)].
      + cbn [app]. split; [exact Hnd|]. intros f Hf.
        destruct (Hge f Hf) as (seq & i & -> & Hs). exists seq, i. split; [reflexivity|lia].
      + split.
        * apply NoDup_app.
          -- apply NoDup_map_injective; [|apply seq_NoDup].
             intros x y E. now apply func_name_inj in E.
          -- exact Hnd.
          -- intros f Hf Hf'. apply in_map_iff in Hf as (i & <- & _).
             destruct (Hge _ Hf') as (seq & j & E & Hs).
             apply func_name_inj in E as [E _]. lia.
        * intros f Hf. apply in_app_or in Hf as [Hf|Hf].
          -- apply in_map_iff in Hf as (i & <- & _). exists tc, i. split; [reflexivity|lia].
          -- destruct (Hge f Hf) as (seq & i & -> & Hs). exists seq, i.
             split; [reflexivity|lia]. }
  apply H.
Qed.

End LevelTwo.

Lemma function_names_distinct_witness :
  NoDup (r_funcs (paths_loop name_only_templates sample_builtins 0 sample_paths_full
                    (mk_run [] 0 init_state))).
Proof.
  apply (function_names_distinct name_only_templates sample_builtins 0 sample_paths_full
           init_state).
  reflexivity.
Defined.

(** * More on the security-case builder and on failing runs *)

Section MoreSecurity.

Variable l_templates : templates.
Variable py : builtins.

Local Abbreviation sec_loop := (security_loop l_templates).
Local Abbreviation sec_cases := (generate_security_cases l_templates).

Lemma security_loop_accepted (security_data : dict security_config) :
  (forall cfg, In ("apiKey", cfg) security_data ->
     exists loc, sc_in cfg = Some loc /\
                 String.eqb (lower loc) "header" && name_given (sc_name cfg) = true) ->
  forall acc,
    sec_loop security_data acc =
    Ok (acc ++ flat_map (security_fragment l_templates) security_data).
Proof.
  induction security_data as [|[ty cfg] rest IH]; intros Hacc acc.
  - cbn. now rewrite app_nil_r.
  - cbn [security_loop flat_map]. unfold security_fragment at 1. cbn [fst snd].
    assert (Hrest : forall c, In ("apiKey", c) rest ->
              exists loc, sc_in c = Some loc /\
                          String.eqb (lower loc) "header" && name_given (sc_name c) = true)
      by (intros c Hc; apply Hacc; now right).
    destruct (String.eqb ty "BasicAuth").
    + rewrite IH by exact Hrest. now rewrite <- app_assoc.
    + destruct (String.eqb ty "apiKey") eqn:Ea.
      * apply String.eqb_eq in Ea. subst ty.
        destruct (Hacc cfg (or_introl eq_refl)) as (loc & -> & ->).
        rewrite IH by exact Hrest. now rewrite <- app_assoc.
      * rewrite IH by exact Hrest. reflexivity.
Qed.

(** X19: when every [apiKey] scheme of the mapping has the location
    header (in any letter case) and a non-empty name, the builder
    succeeds and its output is the concatenation, in declaration order,
    of one basic-authentication fragment per [BasicAuth] entry and one
    header fragment, with the scheme's name, per [apiKey] entry; other
    entries add nothing. *)
Theorem security_cases_accepted (security_data : dict security_config) :
  (forall cfg, In ("apiKey", cfg) security_data ->
     exists loc, sc_in cfg = Some loc /\
                 String.eqb (lower loc) "header" && name_given (sc_name cfg) = true) ->
  sec_cases security_data =
  Ok (String.concat "" (flat_map (security_fragment l_templates) security_data)).
Proof.
  intros H. unfold generate_security_cases. now rewrite security_loop_accepted.
Qed.

(** X20: an [apiKey] scheme without location makes the builder raise an
    [AttributeError], whatever its name: the location is lower-cased
    before anything is checked.  The run raises the same error. *)
Theorem api_key_without_location_raises (strict_level : nat) (data : swagger_data)
    (cfg : security_config) (s : state) :
  NoDup (keys (sw_security data)) ->
  In ("apiKey", cfg) (sw_security data) ->
  sc_in cfg = None ->
  sec_cases (sw_security data) = Raise (AttributeError "lower")
  /\ fst (generate_locustfile l_templates py strict_level data s) =
     Raise (AttributeError "lower").
Proof.
  intros Hnd Hin Hloc.
  assert (Hraise : sec_cases (sw_security data) = Raise (AttributeError "lower")).
  { apply in_split in Hin as (pre & post & Hsplit). rewrite Hsplit in *.
    assert (Hnot : ~ In "apiKey" (keys pre)).
    { unfold keys in Hnd. rewrite map_app in Hnd. cbn [map fst] in Hnd.
      apply NoDup_remove_2 in Hnd. intros H. apply Hnd. apply in_or_app. now left. }
    unfold generate_security_cases.
    destruct (security_loop_before l_templates pre (("apiKey", cfg) :: post) Hnot [])
      as [acc' ->].
    cbn [security_loop]. cbn. now rewrite Hloc. }
  split; [exact Hraise|].
  rewrite generate_locustfile_result. cbn zeta. rewrite Hraise.
  destruct (sw_security data); [destruct Hin|reflexivity].
Qed.

Lemma security_loop_raise (security_data : dict security_config) :
  forall acc e,
    sec_loop security_data acc = Raise e ->
    exists cfg,
      In ("apiKey", cfg) security_data
      /\ ((sc_in cfg = None /\ e = AttributeError "lower")
          \/ (exists loc, sc_in cfg = Some loc
                /\ String.eqb (lower loc) "header" && name_given (sc_name cfg) = false
                /\ e = ValueError (UnsupportedSecurity cfg))).
Proof.
  induction security_data as [|[ty cfg] rest IH]; intros acc e H; [discriminate|].
  cbn [security_loop] in H.
  assert (Hrest : forall acc', sec_loop rest acc' = Raise e ->
            exists c, In ("apiKey", c) ((ty, cfg) :: rest)
              /\ ((sc_in c = None /\ e = AttributeError "lower")
                  \/ (exists loc, sc_in c = Some loc
                        /\ String.eqb (lower loc) "header" && name_given (sc_name c) = false
                        /\ e = ValueError (UnsupportedSecurity c)))).
  { intros acc' H'. destruct (IH _ _ H') as (c & Hc & Hcase). exists c.
    split; [now right|exact Hcase]. }
  destruct (String.eqb ty "BasicAuth"); [exact (Hrest _ H)|].
  destruct (String.eqb ty "apiKey") eqn:Ea; [|exact (Hrest _ H)].
  apply String.eqb_eq in Ea. subst ty.
  destruct (sc_in cfg) as [loc|] eqn:El.
  - destruct (String.eqb (lower loc) "header" && name_given (sc_name cfg)) eqn:Eacc;
      [exact (Hrest _ H)|].
    injection H as <-. exists cfg. split; [now left|]. right. exists loc. auto.
  - injection H as <-. exists cfg. split; [now left|]. left. auto.
Qed.

(** X21: a run raises only because of an [apiKey] scheme: one without
    location (an [AttributeError]) or one that is not accepted (the
    unsupported-scheme [ValueError]).  No error of the parameter
    extractor ever reaches the caller, and a specification without
    security schemes always yields a script. *)
Theorem run_raises_only_for_api_key (strict_level : nat) (data : swagger_data) (s : state)
    (e : exn) :
  fst (generate_locustfile l_templates py strict_level data s) = Raise e ->
  sw_security data <> []
  /\ exists cfg,
       In ("apiKey", cfg) (sw_security data)
       /\ ((sc_in cfg = None /\ e = AttributeError "lower")
           \/ (exists loc, sc_in cfg = Some loc
                 /\ String.eqb (lower loc) "header" && name_given (sc_name cfg) = false
                 /\ e = ValueError (UnsupportedSecurity cfg))).
Proof.
  rewrite generate_locustfile_result. cbn zeta.
  destruct (sw_security data) as [|item rest] eqn:Es; [discriminate|].
  unfold generate_security_cases.
  destruct (sec_loop (item :: rest) []) as [cases|e'] eqn:El; [discriminate|].
  intros H. injection H as <-. split; [discriminate|].
  exact (security_loop_raise _ _ _ El).
Qed.

End MoreSecurity.

Lemma security_cases_accepted_witness :
  generate_security_cases sample_templates
    [("OAuth2", mk_security None None); ("apiKey", mk_security (Some "HEADER") (Some "X-Key"));
     ("BasicAuth", mk_security None None)] =
  Ok "header[X-Key];auth=basic;".
Proof.
  apply (security_cases_accepted sample_templates
           [("OAuth2", mk_security None None);
            ("apiKey", mk_security (Some "HEADER") (Some "X-Key"));
            ("BasicAuth", mk_security None None)]).
  intros cfg [H|[H|[H|[]]]]; try discriminate.
  injection H as <-. exists "HEADER". split; reflexivity.
Defined.

Lemma api_key_without_location_raises_witness :
  fst (generate_locustfile sample_templates sample_builtins 0
         (mk_swagger sample_paths_full
            [("BasicAuth", mk_security None None); ("apiKey", mk_security None (Some "X-Key"))]
            "localhost") init_state) =
  Raise (AttributeError "lower").
Proof.
  refine (proj2
    (api_key_without_location_raises sample_templates sample_builtins 0
       (mk_swagger sample_paths_full
          [("BasicAuth", mk_security None None); ("apiKey", mk_security None (Some "X-Key"))]
          "localhost")
       (mk_security None (Some "X-Key")) init_state _ _ _)).
  - repeat constructor; simpl; intuition discriminate.
  - right. left. reflexivity.
  - reflexivity.
Defined.

Lemma run_raises_only_for_api_key_witness :
  exists cfg,
    In ("apiKey", cfg) [("apiKey", mk_security (Some "cookie") (Some "sid"))]
    /\ ((sc_in cfg = None /\
         ValueError (UnsupportedSecurity (mk_security (Some "cookie") (Some "sid"))) =
         AttributeError "lower")
        \/ (exists loc, sc_in cfg = Some loc
              /\ String.eqb (lower loc) "header" && name_given (sc_name cfg) = false
              /\ ValueError (UnsupportedSecurity (mk_security (Some "cookie") (Some "sid"))) =
                 ValueError (UnsupportedSecurity cfg))).
Proof.
  exact (proj2
    (run_raises_only_for_api_key sample_templates sample_builtins 1
       (mk_swagger sample_paths_full [("apiKey", mk_security (Some "cookie") (Some "sid"))]
          "localhost")
       init_state _ eq_refl)).
Defined.

(** * Levels 0 and 1, and the first case *)

Lemma filter_filter {X : Type} (f g : X -> bool) (l : list X) :
  filter f (filter g l) = filter (fun x => g x && f x) l.
Proof.
  induction l as [|x l IH]; [reflexivity|]. cbn [filter].
  destruct (g x); cbn [filter andb]; [destruct (f x)|]; now rewrite IH.
Qed.

(** X22: when all locations are valid, strict levels 0 and 1 both
    succeed and agree on the required parameters of every location;
    level 1 keeps, of the optional parameters of level 0, exactly those
    that have a default, in the same order. *)
Theorem strict_levels_0_and_1 (params : dict param_config) :
  Forall (fun item => valid_location (snd item) = true) params ->
  exists ex0 ex1,
    _extract_params 0 params = Ok ex0
    /\ _extract_params 1 params = Ok ex1
    /\ forall t,
         required (get_target t ex1) = required (get_target t ex0)
         /\ not_required (get_target t ex1) =
            filter has_default (not_required (get_target t ex0)).
Proof.
  intros Hvalid.
  assert (Hacc : forall lvl, lvl <> 2 ->
            Forall (fun item => rejected lvl (snd item) = false) params).
  { intros lvl Hl. eapply Forall_impl; [|exact Hvalid]. intros item Hv. unfold rejected.
    rewrite Hv. destruct lvl as [|[|[|lvl]]]; try reflexivity. contradiction. }
  exists (buckets_of 0 params), (buckets_of 1 params).
  split; [apply extract_ok_of_accepted, Hacc; discriminate|].
  split; [apply extract_ok_of_accepted, Hacc; discriminate|].
  intros t. rewrite !get_target_buckets_of. unfold bucket_of. cbn [required not_required].
  split.
  - apply filter_ext. intros c. cbn [included].
    destruct (located_at t c), (is_required c), (has_default c); reflexivity.
  - rewrite filter_filter. apply filter_ext. intros c. cbn [included].
    destruct (located_at t c), (is_required c), (has_default c); reflexivity.
Qed.

Lemma strict_levels_0_and_1_witness :
  exists ex0 ex1,
    _extract_params 0 sample_params = Ok ex0
    /\ _extract_params 1 sample_params = Ok ex1
    /\ forall t,
         required (get_target t ex1) = required (get_target t ex0)
         /\ not_required (get_target t ex1) =
            filter has_default (not_required (get_target t ex0)).
Proof.
  apply (strict_levels_0_and_1 sample_params). repeat constructor.
Defined.

Section FirstCase.

Variable l_templates : templates.
Variable py : builtins.

(** X23: case 0 of an operation is the request with the required
    parameters only: when extraction succeeds, the first test function
    the operation adds is rendered from the required side of each of the
    four buckets. *)
Theorem first_case_required_only (strict_level : nat) (path method : string)
    (md : method_data) (ex : extracted) (r : run) :
  _extract_params strict_level (get_params md) = Ok ex ->
  exists rest,
    r_funcs (method_step l_templates py strict_level path r (method, md)) =
    r_funcs r ++
    FUNC_TEMPLATE l_templates
      ("test_" +++ str_nat (r_test_count r) +++ "_case_" +++ str_nat 0) method path
      (fst (_format_params l_templates py (required (path_params ex))
              (r_test_count r) "path" []))
      (fst (_format_params l_templates py (required (query_params ex))
              (r_test_count r) "query" []))
      (fst (_format_params l_templates py (required (header_params ex))
              (r_test_count r) "header" []))
      (fst (_format_params l_templates py (required (cookie_params ex))
              (r_test_count r) "cookie" []))
    :: rest.
Proof.
  intros Hex. rewrite method_step_spec. unfold op_outcome, generate_params. rewrite Hex.
  unfold apply_outcome. cbn [r_funcs o_funcs].
  unfold cross. cbn [c_path_params c_query_params c_header_params c_cookie_params].
  destruct (create_params_combinations_first (required (path_params ex))
              (not_required (path_params ex))) as [rp Hp].
  destruct (create_params_combinations_first (required (query_params ex))
              (not_required (query_params ex))) as [rq Hq].
  destruct (create_params_combinations_first (required (header_params ex))
              (not_required (header_params ex))) as [rh Hh].
  destruct (create_params_combinations_first (required (cookie_params ex))
              (not_required (cookie_params ex))) as [rc Hc].
  destruct ex as [[Rp Op] [Rq Oq] [Rh Oh] [Rc Oc]].
  cbn [path_params query_params header_params cookie_params required not_required] in *.
  rewrite Hp, Hq, Hh, Hc. cbn [list_prod map app case_funcs case_func].
  rewrite !format_params_spec. cbn [fst]. eexists. reflexivity.
Qed.

End FirstCase.

Lemma first_case_required_only_witness :
  exists rest,
    r_funcs (method_step sample_templates sample_builtins 0 "/pets" (mk_run [] 0 init_state)
               ("get", mk_method (Some sample_params))) =
    "def test_0_case_0(l): l.client.get(/pets, pet='rex', params={'id': id_test_0}, headers={}, cookies={});"
    :: rest.
Proof.
  destruct (first_case_required_only sample_templates sample_builtins 0 "/pets" "get"
              (mk_method (Some sample_params)) _ (mk_run [] 0 init_state) eq_refl)
    as [rest H].
  exists rest. exact H.
Defined.

(** * Value resolution, the placeholder table and the declarations *)






Section PlaceholderClaim.

Variable l_templates : templates.
Variable py : builtins.


End PlaceholderClaim.



Example declarations_in_file :
  fst (generate_locustfile sample_templates sample_builtins 0
         (mk_swagger [("/owners", [("post", sample_post)])] [] "localhost") init_state) =
  Ok ("id_test_0 = " +++ dquote +++ "#" +++ dquote +++ "  # {'name': id}|" +++
      "def test_0_case_0(l): l.client.post(/owners, params={'id': id_test_0}, " +++
      "headers={}, cookies={});" +++
      "def test_0_case_1(l): l.client.post(/owners, " +++
      "params={'id': id_test_0, 'limit': 10}, headers={}, cookies={});" +++
      "|None|localhost").
Proof. vm_compute. reflexivity. Qed.
